(** * ESP32-S3 mouse jiggler: a shallow embedding of [esp32-Mouse-Jiggler.ino]

    The sketch is a single cooperative polling loop over four globals
    ([gState], [gSession], [gStartMs], [gNextActionMs]).  It talks to the
    outside through the Arduino core: [millis()], [random()],
    [digitalWrite()], [delay()] and [Mouse.move()].

    Modelling choices.
    - [unsigned long] is 32 bits wide on the ESP32-S3: values are [Z] in
      [0, 2^32) and every unsigned operation is followed by [wrap32].
    - [int] is modelled as [Z].  Every [int] the sketch computes stays
      far below [2^31] on the inputs considered ([|totalDx|, |totalDy| <= 100],
      [i <= steps <= 30]), so no signed operation overflows.
    - [float] arithmetic is read as exact real arithmetic ([R]); [cosf] is
      [cos], [PI] is [PI], [lroundf] rounds half away from zero.
    - The environment is an oracle carried in the state: [clock k] is the
      true number of milliseconds since boot at the [k]-th call of
      [millis()] (unbounded), and [entropy k] is the raw value behind the
      [k]-th random draw.  Outputs are appended to a chronological trace. *)

From Stdlib Require Import ZArith List Lia Bool Reals Lra.
Import ListNotations.

Local Open Scope Z_scope.

(** ** Machine integers *)

Definition wrap32 (x : Z) : Z := x mod 2 ^ 32.

(** ** Tunables (lines 28-40) *)

Definition kMoveRangePx : Z := 100.
Definition kMinPauseMs : Z := 22000.
Definition kMaxPauseMs : Z := 42000.
Definition kMinSteps : Z := 20.
Definition kMaxSteps : Z := 30.
Definition kStepInterval : Z := 5.
Definition kHoursToRun : Z := 8.

(** [LED_BUILTIN] falls back to pin 2 (line 38). *)
Definition kLedPin : Z := 2.

Definition HIGH : bool := true.
Definition LOW : bool := false.

(** [(unsigned long)(kHoursToRun * 60.0f * 60.0f * 1000.0f)] (line 160):
    every intermediate product (480, 28800, 28800000) is an integer that a
    binary32 float represents exactly. *)
Definition limitMs : Z := kHoursToRun * 60 * 60 * 1000.

(** ** State machine data (lines 43-60) *)

Inductive JiggleState : Type := IDLE | MOVING.

Record MovementSession : Type := mkSession {
  totalDx : Z;
  totalDy : Z;
  steps : Z;
  prevX : Z;
  prevY : Z;
  i : Z;
  lastStepMs : Z
}.

(** What the sketch does to the outside world. *)
Inductive Output : Type :=
| DigitalWrite (pin : Z) (level : bool)
| Delay (ms : Z)
| MouseMove (x y wheel pan : Z).

Record World : Type := mkWorld {
  gState : JiggleState;
  gSession : MovementSession;
  gStartMs : Z;
  gNextActionMs : Z;
  clock : nat -> Z;
  ticks : nat;
  entropy : nat -> Z;
  draws : nat;
  trace : list Output
}.

Definition defaultSession : MovementSession := mkSession 0 0 0 0 0 0 0.

(** The statically initialised globals at power-up. *)
Definition boot (clk rnd : nat -> Z) : World :=
  mkWorld IDLE defaultSession 0 0 clk 0%nat rnd 0%nat [].

Definition set_lastStepMs (v : Z) (s : MovementSession) : MovementSession :=
  mkSession (totalDx s) (totalDy s) (steps s) (prevX s) (prevY s) (i s) v.

Definition set_progress (x y k : Z) (s : MovementSession) : MovementSession :=
  mkSession (totalDx s) (totalDy s) (steps s) x y k (lastStepMs s).

Definition set_gState (v : JiggleState) (w : World) : World :=
  mkWorld v (gSession w) (gStartMs w) (gNextActionMs w)
          (clock w) (ticks w) (entropy w) (draws w) (trace w).

Definition set_gSession (v : MovementSession) (w : World) : World :=
  mkWorld (gState w) v (gStartMs w) (gNextActionMs w)
          (clock w) (ticks w) (entropy w) (draws w) (trace w).

Definition set_gStartMs (v : Z) (w : World) : World :=
  mkWorld (gState w) (gSession w) v (gNextActionMs w)
          (clock w) (ticks w) (entropy w) (draws w) (trace w).

Definition set_gNextActionMs (v : Z) (w : World) : World :=
  mkWorld (gState w) (gSession w) (gStartMs w) v
          (clock w) (ticks w) (entropy w) (draws w) (trace w).

Definition tick (w : World) : World :=
  mkWorld (gState w) (gSession w) (gStartMs w) (gNextActionMs w)
          (clock w) (S (ticks w)) (entropy w) (draws w) (trace w).

Definition draw (w : World) : World :=
  mkWorld (gState w) (gSession w) (gStartMs w) (gNextActionMs w)
          (clock w) (ticks w) (entropy w) (S (draws w)) (trace w).

Definition emit (o : Output) (w : World) : World :=
  mkWorld (gState w) (gSession w) (gStartMs w) (gNextActionMs w)
          (clock w) (ticks w) (entropy w) (draws w) (trace w ++ [o]).

(** ** A state monad over [World] *)

Definition M (A : Type) : Type := World -> A * World.

Definition ret {A : Type} (a : A) : M A := fun w => (a, w).

Definition bind {A B : Type} (c : M A) (k : A -> M B) : M B :=
  fun w => let (a, w') := c w in k a w'.

Definition gets {A : Type} (f : World -> A) : M A := fun w => (f w, w).

Definition modify (f : World -> World) : M unit := fun w => (tt, f w).

Definition exec {A : Type} (c : M A) (w : World) : World := snd (c w).

Definition result {A : Type} (c : M A) (w : World) : A := fst (c w).

Declare Scope jig_scope.
Delimit Scope jig_scope with jig.
Notation "x <- c1 ;; c2" := (bind c1 (fun x => c2))
  (at level 61, c1 at next level, right associativity) : jig_scope.
Notation "c1 ;; c2" := (bind c1 (fun _ => c2))
  (at level 61, right associativity) : jig_scope.
Local Open Scope jig_scope.

(** ** The Arduino core, as the sketch uses it *)

(** [millis()]: the low 32 bits of the true time of this reading. *)
Definition millis : M Z :=
  fun w => (wrap32 (clock w (ticks w)), tick w).

(** [random(howsmall, howbig)] of the Arduino core: [howsmall] when the
    range is empty, otherwise a value in [howsmall, howbig - 1]; the upper
    bound is exclusive, which is why [beginSession] passes [max + 1]. *)
Definition random (howsmall howbig : Z) : M Z :=
  fun w =>
    if howbig <=? howsmall then (howsmall, w)
    else (howsmall + entropy w (draws w) mod (howbig - howsmall), draw w).

Definition digitalWrite (pin : Z) (level : bool) : M unit :=
  modify (emit (DigitalWrite pin level)).

Definition delay (ms : Z) : M unit := modify (emit (Delay ms)).

(** [Mouse.move(x, y, wheel, pan)]; the arguments are recorded as passed. *)
Definition mouseMove (x y wheel pan : Z) : M unit :=
  modify (emit (MouseMove x y wheel pan)).

(** ** Helpers (lines 63-78) *)

(** [0.5f * (1.0f - cosf(PI * t))], read over the reals.  The sketch calls
    it with [t = nextIndex / steps] only, a progress in [[0, 1]] for a
    live burst.  In binary32 the product [PI * t] is narrowed before
    [cosf], so for large [t] the code and this reading part ways; the
    statements below that depend on values of the curve are about [t] in
    [[0, 1]]. *)
Definition easeCosine01 (t : R) : R := (0.5 * (1 - cos (PI * t)))%R.

(** [lroundf]: nearest integer, halfway cases away from zero. *)
Definition lroundf (x : R) : Z :=
  if Rle_dec 0 x then Int_part (x + / 2) else - Int_part (- x + / 2).

Definition scheduleNextIdleWindow : M unit :=
  now <- millis ;;
  r <- random kMinPauseMs kMaxPauseMs ;;
  modify (set_gNextActionMs (wrap32 (now + r))).

(** ** The three time comparisons of the sketch *)

(** Line 159-162: [millis() - gStartMs >= limitMs]. *)
Definition budgetExpired (now start : Z) : bool :=
  limitMs <=? wrap32 (now - start).

(** Line 100: [now - gSession.lastStepMs < (unsigned long)kStepInterval]. *)
Definition stepNotDue (now last : Z) : bool :=
  wrap32 (now - last) <? kStepInterval.

(** Line 170: [millis() >= gNextActionMs]. *)
Definition deadlineReached (now deadline : Z) : bool :=
  deadline <=? now.

(** ** Session planner and burst stepper (lines 80-136) *)

Definition beginSession : M unit :=
  dx <- random (- kMoveRangePx) (kMoveRangePx + 1) ;;
  dy <- random (- kMoveRangePx) (kMoveRangePx + 1) ;;
  n <- random kMinSteps (kMaxSteps + 1) ;;
  modify (set_gSession (mkSession dx dy n 0 0 0 0)) ;;
  modify (set_gState MOVING).

(** Lines 104-135: the micro-step proper, reached once the gate of
    [stepSessionIfDue] has let the call through. *)
Definition microStep (now : Z) : M bool :=
  s <- gets gSession ;;
  modify (set_gSession (set_lastStepMs now s)) ;;
  let nextIndex := i s + 1 in
  let t := (IZR nextIndex / IZR (steps s))%R in
  let e := easeCosine01 t in
  let xPos := lroundf (IZR (totalDx s) * e) in
  let yPos := lroundf (IZR (totalDy s) * e) in
  let dx := xPos - prevX s in
  let dy := yPos - prevY s in
  (if negb (dx =? 0) || negb (dy =? 0)
   then mouseMove dx dy 0 0 else ret tt) ;;
  modify (set_gSession (set_progress xPos yPos nextIndex
                                     (set_lastStepMs now s))) ;;
  if steps s <=? nextIndex then
    digitalWrite kLedPin HIGH ;;
    delay 100 ;;
    digitalWrite kLedPin LOW ;;
    modify (set_gState IDLE) ;;
    scheduleNextIdleWindow ;;
    ret false
  else ret true.

Definition stepSessionIfDue : M bool :=
  now <- millis ;;
  s0 <- gets gSession ;;
  (if i s0 =? 0
   then modify (set_gSession (set_lastStepMs now s0)) else ret tt) ;;
  s1 <- gets gSession ;;
  if stepNotDue now (lastStepMs s1) then ret true
  else microStep now.

(** ** Arduino lifecycle (lines 139-182) *)

(** The USB identity calls and [seedRng] do not touch the modelled state:
    the entropy oracle is arbitrary already. *)
Definition setup : M unit :=
  digitalWrite kLedPin LOW ;;
  now <- millis ;;
  modify (set_gStartMs now) ;;
  scheduleNextIdleWindow.

Definition loop : M unit :=
  now <- millis ;;
  start <- gets gStartMs ;;
  if budgetExpired now start then
    digitalWrite kLedPin HIGH ;;
    delay 1000
  else
    st <- gets gState ;;
    match st with
    | IDLE =>
        now' <- millis ;;
        deadline <- gets gNextActionMs ;;
        if deadlineReached now' deadline then beginSession else delay 5
    | MOVING =>
        _ <- stepSessionIfDue ;;
        delay 1
    end.

(** [n] consecutive polls of the main loop. *)
Fixpoint loops (n : nat) : M unit :=
  match n with
  | O => ret tt
  | S k => loop ;; loops k
  end.

(** The whole program: power-up, [setup()], then [n] polls. *)
Definition run (clk rnd : nat -> Z) (n : nat) : World :=
  exec (setup ;; loops n) (boot clk rnd).

(** Calls [stepSessionIfDue] until it reports the burst finished, at most
    [fuel] times; the result tells whether the burst finished. *)
Fixpoint runBurst (fuel : nat) : M bool :=
  match fuel with
  | O => ret false
  | S k =>
      still <- stepSessionIfDue ;;
      if still then runBurst k else ret true
  end.

(** Micro-steps in a row, one per element of [nows] and stamped with it;
    stops early when a micro-step reports the burst finished.  The result
    tells whether the burst finished. *)
Fixpoint microSteps (nows : list Z) : M bool :=
  match nows with
  | [] => ret false
  | now :: rest =>
      still <- microStep now ;;
      if still then microSteps rest else ret true
  end.

(** ** Observations on a trace *)

Fixpoint mouseMoves (tr : list Output) : list (Z * Z) :=
  match tr with
  | [] => []
  | MouseMove x y _ _ :: rest => (x, y) :: mouseMoves rest
  | _ :: rest => mouseMoves rest
  end.

Fixpoint sumX (l : list (Z * Z)) : Z :=
  match l with
  | [] => 0
  | (x, _) :: rest => x + sumX rest
  end.

Fixpoint sumY (l : list (Z * Z)) : Z :=
  match l with
  | [] => 0
  | (_, y) :: rest => y + sumY rest
  end.

(** Level of the indicator pin after a trace; [LOW] before any write. *)
Fixpoint ledLevel (tr : list Output) (level : bool) : bool :=
  match tr with
  | [] => level
  | DigitalWrite pin l :: rest =>
      ledLevel rest (if pin =? kLedPin then l else level)
  | _ :: rest => ledLevel rest level
  end.

Definition ledOn (w : World) : bool := ledLevel (trace w) LOW.

(** A burst is live while it still has micro-steps to take. *)
Definition live (s : MovementSession) : Prop := i s < steps s.

(** The deadline is well defined: it is what [scheduleNextIdleWindow]
    computes (line 77) from a clock reading the program has already taken
    and a random draw it has already made.  False at power-up, when no
    reading and no draw has been taken yet. *)
Definition scheduled (w : World) : Prop :=
  exists k d : nat,
    (k < ticks w)%nat /\ (d < draws w)%nat /\
    gNextActionMs w
    = wrap32 (wrap32 (clock w k)
              + (kMinPauseMs + entropy w d mod (kMaxPauseMs - kMinPauseMs))).

(** The mode invariant of the run state. *)
Definition modeInv (w : World) : Prop :=
  (gState w = MOVING <-> live (gSession w)) /\
  (gState w = IDLE <-> ~ live (gSession w) /\ scheduled w) /\
  0 <= gNextActionMs w < 2 ^ 32.

(** Integer target position of the [k]-th of [n] micro-steps: the
    expression [lroundf(total * easeCosine01(float(k) / float(n)))] of
    lines 107-111.  [IZR total] stands for the conversion of the [int]
    plan to binary32, which is exact up to [2^24] in magnitude and so on
    the whole sampled range; statements about the values of positions
    carry that range as a hypothesis. *)
Definition easedPos (total k n : Z) : Z :=
  lroundf (IZR total * easeCosine01 (IZR k / IZR n)).

(** The session as a micro-step stamped [now] leaves it. *)
Definition afterStep (now : Z) (s : MovementSession) : MovementSession :=
  set_progress (easedPos (totalDx s) (i s + 1) (steps s))
               (easedPos (totalDy s) (i s + 1) (steps s))
               (i s + 1) (set_lastStepMs now s).

(** The motion report a micro-step sends, if any. *)
Definition stepReport (s : MovementSession) : list (Z * Z) :=
  let dx := easedPos (totalDx s) (i s + 1) (steps s) - prevX s in
  let dy := easedPos (totalDy s) (i s + 1) (steps s) - prevY s in
  if negb (dx =? 0) || negb (dy =? 0) then [(dx, dy)] else [].

(** ** Concrete scenarios used below *)

(** A clock that reads [base] first and advances [period] ms per reading. *)
Definition steadyClock (base period : Z) (k : nat) : Z :=
  base + period * Z.of_nat k.

Definition constEntropy (v : Z) (k : nat) : Z := v.

(** A freshly begun burst, as [beginSession] leaves it. *)
Definition freshSession (dx dy n : Z) : MovementSession :=
  mkSession dx dy n 0 0 0 0.

(** A world in the [MOVING] mode holding session [s]. *)
Definition movingWorld (s : MovementSession) (clk : nat -> Z) : World :=
  mkWorld MOVING s 0 22000 clk 0%nat (constEntropy 0) 0%nat [].

(** Entropy under which [beginSession] samples a zero displacement:
    draw 0 is the start-up pause, draws 1 and 2 give
    [-100 + 100 = 0], draw 3 gives [steps = 20]. *)
Definition zeroBurstEntropy (k : nat) : Z :=
  match k with
  | 1%nat | 2%nat => 100
  | _ => 0
  end.

(** The indicator writes of a trace, in order. *)
Fixpoint digitalWrites (tr : list Output) : list (Z * bool) :=
  match tr with
  | [] => []
  | DigitalWrite pin l :: rest => (pin, l) :: digitalWrites rest
  | _ :: rest => digitalWrites rest
  end.

(** Reports sent so far plus what is still to come add up to the plan. *)
Definition owedX (w : World) : Z :=
  sumX (mouseMoves (trace w)) + (totalDx (gSession w) - prevX (gSession w)).

Definition owedY (w : World) : Z :=
  sumY (mouseMoves (trace w)) + (totalDy (gSession w) - prevY (gSession w)).

(** A burst of plan [(10, 0)] in 2 steps whose first step has been sent
    at time 1000. *)
Definition halfwaySession : MovementSession := mkSession 10 0 2 5 0 1 1000.

(** The stepper is called 3 ms after the last step: too early. *)
Definition earlyWorld : World := movingWorld halfwaySession (steadyClock 1003 1).

(** The stepper is called 5 ms after the last step: due. *)
Definition dueWorld : World := movingWorld halfwaySession (steadyClock 1005 1).

(** A fresh burst of plan [(10, 0)] in 2 steps. *)
Definition scenarioWorld : World :=
  movingWorld (freshSession 10 0 2) (steadyClock 1000 5).

(** A clock read twice at boot, then exactly when the run budget expires,
    then [2^32 + 22000] ms after boot, once the 32-bit counter has wrapped. *)
Definition wrapClock (k : nat) : Z :=
  match k with
  | 0%nat | 1%nat => 0
  | 2%nat => limitMs
  | _ => 2 ^ 32 + 22000
  end.

(** An idle world whose clock is 10 s short of the point where the 32-bit
    counter wraps; its run started 10 s earlier. *)
Definition nearWrapWorld : World :=
  mkWorld IDLE defaultSession (2 ^ 32 - 20000) 0
          (steadyClock (2 ^ 32 - 10000) 1) 0%nat (constEntropy 0) 0%nat [].

(** An idle world whose next clock reading is the last one before the
    counter wraps. *)
Definition lastTickWorld : World :=
  mkWorld IDLE defaultSession 0 0
          (steadyClock (2 ^ 32 - 1) 1) 0%nat (constEntropy 0) 0%nat [].

(** An idle world early in a run. *)
Definition earlyIdleWorld : World :=
  mkWorld IDLE defaultSession 0 0
          (steadyClock 1000 1) 0%nat (constEntropy 12345) 0%nat [].

(** A world polled well past the end of its budget. *)
Definition expiredWorld : World :=
  movingWorld halfwaySession (steadyClock (limitMs + 7) 1000).

(** A burst halfway through, polled every 5 ms from 5 ms after its
    first step. *)
Definition steppingWorld : World :=
  movingWorld halfwaySession (steadyClock 1005 5).


(** ** Proof automation *)

(** Closes a closed arithmetic side condition by evaluation. *)
Ltac by_eval := vm_compute; repeat split; (reflexivity || discriminate).

(** * Proofs *)

(** ** Machine arithmetic *)

Lemma wrap32_range (x : Z) : 0 <= wrap32 x < 2 ^ 32.
Proof. unfold wrap32. apply Z.mod_pos_bound. lia. Qed.

Lemma wrap32_small (x : Z) : 0 <= x < 2 ^ 32 -> wrap32 x = x.
Proof. intros H. unfold wrap32. apply Z.mod_small. exact H. Qed.

Lemma wrap32_sub (a b : Z) : wrap32 (wrap32 a - wrap32 b) = wrap32 (a - b).
Proof. unfold wrap32. symmetry. apply Zminus_mod. Qed.

Lemma wrap32_sub_l (a b : Z) : wrap32 (wrap32 a - b) = wrap32 (a - b).
Proof. unfold wrap32. apply Zminus_mod_idemp_l. Qed.

Lemma wrap32_add_l (a b : Z) : wrap32 (wrap32 a + b) = wrap32 (a + b).
Proof. unfold wrap32. apply Zplus_mod_idemp_l. Qed.

(** The unsigned difference of two readings is the true elapsed time as
    long as that time fits the counter. *)
Lemma wrap32_elapsed (T0 T : Z) :
  0 <= T - T0 < 2 ^ 32 -> wrap32 (wrap32 T - wrap32 T0) = T - T0.
Proof. intros H. rewrite wrap32_sub. apply wrap32_small. exact H. Qed.

(** ** Traces *)

Lemma mouseMoves_app (a b : list Output) :
  mouseMoves (a ++ b) = mouseMoves a ++ mouseMoves b.
Proof.
  induction a as [|o a IH]; simpl; [reflexivity|].
  destruct o; simpl; rewrite IH; reflexivity.
Qed.

Lemma sumX_app (a b : list (Z * Z)) : sumX (a ++ b) = sumX a + sumX b.
Proof.
  induction a as [|[x y] a IH]; simpl; [reflexivity|]. rewrite IH. lia.
Qed.

Lemma sumY_app (a b : list (Z * Z)) : sumY (a ++ b) = sumY a + sumY b.
Proof.
  induction a as [|[x y] a IH]; simpl; [reflexivity|]. rewrite IH. lia.
Qed.

Lemma ledLevel_app (a b : list Output) (l : bool) :
  ledLevel (a ++ b) l = ledLevel b (ledLevel a l).
Proof.
  revert l. induction a as [|o a IH]; intros l; simpl; [reflexivity|].
  destruct o; apply IH.
Qed.

(** ** The random source *)

Lemma random_range (lo hi : Z) (w : World) :
  lo < hi -> lo <= result (random lo hi) w < hi.
Proof.
  intros H. unfold result, random.
  destruct (hi <=? lo) eqn:E; [apply Z.leb_le in E; lia|]. simpl.
  pose proof (Z.mod_pos_bound (entropy w (draws w)) (hi - lo)). lia.
Qed.

(** ** One call of the stepper, case by case *)

(** A burst whose index is still 0 is stamped and sent back to wait. *)
Lemma stepSessionIfDue_fresh (w : World) :
  i (gSession w) = 0 ->
  stepSessionIfDue w =
  (true, set_gSession (set_lastStepMs (wrap32 (clock w (ticks w))) (gSession w))
                      (tick w)).
Proof.
  intros H. unfold stepSessionIfDue, bind, millis, gets, modify, ret. cbn.
  rewrite H. cbn. unfold stepNotDue. rewrite Z.sub_diag. reflexivity.
Qed.

Lemma stepSessionIfDue_waiting (w : World) :
  i (gSession w) <> 0 ->
  stepNotDue (wrap32 (clock w (ticks w))) (lastStepMs (gSession w)) = true ->
  stepSessionIfDue w = (true, tick w).
Proof.
  intros Hi Hd. unfold stepSessionIfDue, bind, millis, gets, modify, ret. cbn.
  apply Z.eqb_neq in Hi. rewrite Hi. cbn. rewrite Hd. reflexivity.
Qed.

Lemma stepSessionIfDue_due (w : World) :
  i (gSession w) <> 0 ->
  stepNotDue (wrap32 (clock w (ticks w))) (lastStepMs (gSession w)) = false ->
  stepSessionIfDue w = microStep (wrap32 (clock w (ticks w))) (tick w).
Proof.
  intros Hi Hd. unfold stepSessionIfDue, bind, millis, gets, modify, ret. cbn.
  apply Z.eqb_neq in Hi. rewrite Hi. cbn. rewrite Hd. reflexivity.
Qed.

(** The micro-step in closed form: an optional report, the session
    update, and on the last step the indicator pulse, the return to
    [IDLE] and the next idle window. *)
Lemma microStep_unfold (now : Z) (w : World) :
  microStep now w =
  let s := gSession w in
  let w1 := match stepReport s with
            | (dx, dy) :: _ => emit (MouseMove dx dy 0 0) w
            | [] => w
            end in
  let w2 := set_gSession (afterStep now s) w1 in
  if steps s <=? i s + 1 then
    (false,
     exec scheduleNextIdleWindow
       (set_gState IDLE
          (emit (DigitalWrite kLedPin LOW)
             (emit (Delay 100) (emit (DigitalWrite kLedPin HIGH) w2)))))
  else (true, w2).
Proof.
  unfold microStep, stepReport, afterStep, easedPos, bind, gets, modify, ret,
    mouseMove, digitalWrite, delay, exec. cbn.
  destruct (negb _ || negb _); cbn;
    destruct (steps (gSession w) <=? i (gSession w) + 1); cbn; reflexivity.
Qed.

(** ** Easing and rounding *)

Lemma Int_part_half (z : Z) : Int_part (IZR z + / 2) = z.
Proof. symmetry. apply Int_part_spec. lra. Qed.

Lemma lroundf_IZR (z : Z) : lroundf (IZR z) = z.
Proof.
  unfold lroundf. destruct (Rle_dec 0 (IZR z)) as [_|_].
  - apply Int_part_half.
  - rewrite <- opp_IZR, Int_part_half. lia.
Qed.

Lemma easeCosine01_0 : easeCosine01 0 = 0%R.
Proof. unfold easeCosine01. rewrite Rmult_0_r, cos_0. lra. Qed.

Lemma easeCosine01_1 : easeCosine01 1 = 1%R.
Proof. unfold easeCosine01. rewrite Rmult_1_r, cos_PI. lra. Qed.

Lemma easeCosine01_half : easeCosine01 (1 / 2) = (1 / 2)%R.
Proof.
  unfold easeCosine01. replace (PI * (1 / 2))%R with (PI / 2)%R by lra.
  rewrite cos_PI2. lra.
Qed.

Lemma easeCosine01_monotone (s t : R) :
  (0 <= s)%R -> (s <= t)%R -> (t <= 1)%R -> (easeCosine01 s <= easeCosine01 t)%R.
Proof.
  intros H0 Hst H1. unfold easeCosine01.
  pose proof PI_RGT_0 as Hpi.
  assert (cos (PI * t) <= cos (PI * s))%R.
  { apply cos_decr_1; try nra. }
  lra.
Qed.

Lemma easeCosine01_unit (t : R) : (0 <= easeCosine01 t <= 1)%R.
Proof. unfold easeCosine01. pose proof (COS_bound (PI * t)). lra. Qed.

(** The last micro-step lands exactly on the planned displacement. *)
Lemma easedPos_end (total n : Z) : n <> 0 -> easedPos total n n = total.
Proof.
  intros Hn. unfold easedPos.
  replace (IZR n / IZR n)%R with 1%R.
  - rewrite easeCosine01_1, Rmult_1_r. apply lroundf_IZR.
  - field. apply not_0_IZR. exact Hn.
Qed.

Lemma easedPos_zero (k n : Z) : easedPos 0 k n = 0.
Proof. unfold easedPos. rewrite Rmult_0_l. apply (lroundf_IZR 0). Qed.

Lemma easedPos_10_half : easedPos 10 1 2 = 5.
Proof.
  unfold easedPos. rewrite easeCosine01_half.
  replace (10 * (1 / 2))%R with (IZR 5) by lra. apply lroundf_IZR.
Qed.

(** ** Sequencing *)

Lemma exec_bind {A B : Type} (c : M A) (k : A -> M B) (w : World) :
  exec (bind c k) w = exec (k (result c w)) (exec c w).
Proof. unfold exec, result, bind. destruct (c w). reflexivity. Qed.

Lemma result_bind {A B : Type} (c : M A) (k : A -> M B) (w : World) :
  result (bind c k) w = result (k (result c w)) (exec c w).
Proof. unfold exec, result, bind. destruct (c w). reflexivity. Qed.

(** ** The planner *)

Lemma beginSession_unfold (w : World) :
  exec beginSession w =
  set_gState MOVING
    (set_gSession
       (freshSession
          (- kMoveRangePx + entropy w (draws w) mod (2 * kMoveRangePx + 1))
          (- kMoveRangePx + entropy w (S (draws w)) mod (2 * kMoveRangePx + 1))
          (kMinSteps + entropy w (S (S (draws w))) mod (kMaxSteps + 1 - kMinSteps)))
       (draw (draw (draw w)))).
Proof. reflexivity. Qed.

Lemma beginSession_fresh (w : World) :
  gState (exec beginSession w) = MOVING /\
  i (gSession (exec beginSession w)) = 0 /\
  prevX (gSession (exec beginSession w)) = 0 /\
  prevY (gSession (exec beginSession w)) = 0 /\
  trace (exec beginSession w) = trace w.
Proof. rewrite beginSession_unfold. repeat split. Qed.

Lemma scheduleNextIdleWindow_unfold (w : World) :
  exec scheduleNextIdleWindow w =
  set_gNextActionMs
    (wrap32 (wrap32 (clock w (ticks w))
             + (kMinPauseMs + entropy w (draws w) mod (kMaxPauseMs - kMinPauseMs))))
    (draw (tick w)).
Proof. reflexivity. Qed.

(** ** A burst whose index is 0 never leaves index 0 *)

Lemma runBurst_S (fuel : nat) (w : World) :
  runBurst (S fuel) w =
  if result stepSessionIfDue w then runBurst fuel (exec stepSessionIfDue w)
  else (true, exec stepSessionIfDue w).
Proof.
  unfold result, exec. simpl runBurst. unfold bind, ret.
  destruct (stepSessionIfDue w) as [[|] w']; reflexivity.
Qed.

Lemma runBurst_fresh (fuel : nat) (w : World) :
  i (gSession w) = 0 ->
  result (runBurst fuel) w = false /\
  i (gSession (exec (runBurst fuel) w)) = 0 /\
  trace (exec (runBurst fuel) w) = trace w /\
  gState (exec (runBurst fuel) w) = gState w /\
  gNextActionMs (exec (runBurst fuel) w) = gNextActionMs w.
Proof.
  revert w. induction fuel as [|fuel IH]; intros w Hi.
  - repeat split; assumption.
  - unfold result, exec in *. rewrite runBurst_S.
    unfold result, exec. rewrite (stepSessionIfDue_fresh w Hi). simpl fst. simpl snd.
    apply (IH (set_gSession _ (tick w))). exact Hi.
Qed.

(** ** One poll of the main loop, case by case *)

Lemma loop_unfold (w : World) :
  loop w =
  if budgetExpired (wrap32 (clock w (ticks w))) (gStartMs w) then
    (tt, emit (Delay 1000) (emit (DigitalWrite kLedPin HIGH) (tick w)))
  else
    match gState w with
    | IDLE =>
        if deadlineReached (wrap32 (clock w (S (ticks w)))) (gNextActionMs w)
        then (tt, exec beginSession (tick (tick w)))
        else (tt, emit (Delay 5) (tick (tick w)))
    | MOVING => (tt, emit (Delay 1) (exec stepSessionIfDue (tick w)))
    end.
Proof.
  unfold loop, bind, millis, gets, exec.
  change (gStartMs (tick w)) with (gStartMs w).
  destruct (budgetExpired _ _); [reflexivity|].
  change (gState (tick w)) with (gState w).
  destruct (gState w).
  - change (ticks (tick w)) with (S (ticks w)).
    change (gNextActionMs (tick (tick w))) with (gNextActionMs w).
    destruct (deadlineReached _ _); reflexivity.
  - destruct (stepSessionIfDue (tick w)). reflexivity.
Qed.

Lemma loop_expired (w : World) :
  budgetExpired (wrap32 (clock w (ticks w))) (gStartMs w) = true ->
  loop w = (tt, emit (Delay 1000) (emit (DigitalWrite kLedPin HIGH) (tick w))).
Proof. intros H. rewrite loop_unfold, H. reflexivity. Qed.

Lemma loop_idle_wait (w : World) :
  budgetExpired (wrap32 (clock w (ticks w))) (gStartMs w) = false ->
  gState w = IDLE ->
  deadlineReached (wrap32 (clock w (S (ticks w)))) (gNextActionMs w) = false ->
  loop w = (tt, emit (Delay 5) (tick (tick w))).
Proof. intros H Hs Hd. rewrite loop_unfold, H, Hs, Hd. reflexivity. Qed.

Lemma loop_idle_begin (w : World) :
  budgetExpired (wrap32 (clock w (ticks w))) (gStartMs w) = false ->
  gState w = IDLE ->
  deadlineReached (wrap32 (clock w (S (ticks w)))) (gNextActionMs w) = true ->
  loop w = (tt, exec beginSession (tick (tick w))).
Proof. intros H Hs Hd. rewrite loop_unfold, H, Hs, Hd. reflexivity. Qed.

Lemma loop_moving (w : World) :
  budgetExpired (wrap32 (clock w (ticks w))) (gStartMs w) = false ->
  gState w = MOVING ->
  loop w = (tt, emit (Delay 1) (exec stepSessionIfDue (tick w))).
Proof. intros H Hs. rewrite loop_unfold, H, Hs. reflexivity. Qed.

Lemma loops_S (n : nat) (w : World) :
  exec (loops (S n)) w = exec (loops n) (exec loop w).
Proof. simpl loops. rewrite exec_bind. reflexivity. Qed.

(** Case analysis on one poll. *)
Lemma loop_cases (w : World) :
  exec loop w = emit (Delay 1000) (emit (DigitalWrite kLedPin HIGH) (tick w)) \/
  exec loop w = emit (Delay 5) (tick (tick w)) \/
  exec loop w = exec beginSession (tick (tick w)) \/
  (gState w = MOVING /\
   exec loop w = emit (Delay 1) (exec stepSessionIfDue (tick w))).
Proof.
  unfold exec at 1 2 3 5.
  destruct (budgetExpired (wrap32 (clock w (ticks w))) (gStartMs w)) eqn:Hb.
  - left. rewrite loop_expired by exact Hb. reflexivity.
  - destruct (gState w) eqn:Hs.
    + destruct (deadlineReached (wrap32 (clock w (S (ticks w)))) (gNextActionMs w)) eqn:Hd.
      * right. right. left. rewrite loop_idle_begin by assumption. reflexivity.
      * right. left. rewrite loop_idle_wait by assumption. reflexivity.
    + right. right. right. split; [reflexivity|].
      rewrite loop_moving by assumption. reflexivity.
Qed.

(** Polling never gets a burst past index 0, and never moves the mouse. *)
Lemma loop_keeps_index_zero (w : World) :
  i (gSession w) = 0 ->
  i (gSession (exec loop w)) = 0 /\
  mouseMoves (trace (exec loop w)) = mouseMoves (trace w).
Proof.
  intros Hi. destruct (loop_cases w) as [E|[E|[E|[_ E]]]]; rewrite E.
  - cbn. rewrite <- app_assoc, mouseMoves_app. cbn. rewrite app_nil_r. tauto.
  - cbn. rewrite mouseMoves_app. cbn. rewrite app_nil_r. tauto.
  - rewrite beginSession_unfold. cbn. tauto.
  - unfold exec. rewrite stepSessionIfDue_fresh by exact Hi. cbn.
    rewrite mouseMoves_app. cbn. rewrite app_nil_r. tauto.
Qed.

Lemma loops_keep_index_zero (n : nat) (w : World) :
  i (gSession w) = 0 ->
  i (gSession (exec (loops n) w)) = 0 /\
  mouseMoves (trace (exec (loops n) w)) = mouseMoves (trace w).
Proof.
  revert w. induction n as [|n IH]; intros w Hi; [tauto|].
  rewrite loops_S. destruct (loop_keeps_index_zero w Hi) as [H1 H2].
  destruct (IH _ H1) as [H3 H4]. rewrite H3, H4, H2. tauto.
Qed.

Lemma run_unfold (clk rnd : nat -> Z) (n : nat) :
  run clk rnd n = exec (loops n) (exec setup (boot clk rnd)).
Proof. unfold run. rewrite exec_bind. reflexivity. Qed.

(** No execution of the sketch ever sends a motion report. *)
Lemma run_never_moves (clk rnd : nat -> Z) (n : nat) :
  i (gSession (run clk rnd n)) = 0 /\ mouseMoves (trace (run clk rnd n)) = [].
Proof.
  rewrite run_unfold.
  destruct (loops_keep_index_zero n (exec setup (boot clk rnd))) as [H1 H2];
    [reflexivity|].
  rewrite H1, H2. split; reflexivity.
Qed.

(** ** What one micro-step does *)

Lemma stepReport_sumX (s : MovementSession) :
  sumX (stepReport s) = easedPos (totalDx s) (i s + 1) (steps s) - prevX s.
Proof.
  unfold stepReport.
  destruct (easedPos (totalDx s) (i s + 1) (steps s) - prevX s =? 0) eqn:Ex;
  destruct (easedPos (totalDy s) (i s + 1) (steps s) - prevY s =? 0) eqn:Ey;
  cbn; lia.
Qed.

Lemma stepReport_sumY (s : MovementSession) :
  sumY (stepReport s) = easedPos (totalDy s) (i s + 1) (steps s) - prevY s.
Proof.
  unfold stepReport.
  destruct (easedPos (totalDx s) (i s + 1) (steps s) - prevX s =? 0) eqn:Ex;
  destruct (easedPos (totalDy s) (i s + 1) (steps s) - prevY s =? 0) eqn:Ey;
  cbn; lia.
Qed.

Lemma microStep_result (now : Z) (w : World) :
  result (microStep now) w = negb (steps (gSession w) <=? i (gSession w) + 1).
Proof.
  unfold result. rewrite microStep_unfold. cbv zeta.
  destruct (steps (gSession w) <=? i (gSession w) + 1); reflexivity.
Qed.

Lemma microStep_session (now : Z) (w : World) :
  gSession (exec (microStep now) w) = afterStep now (gSession w).
Proof.
  unfold exec. rewrite microStep_unfold. cbv zeta.
  destruct (steps (gSession w) <=? i (gSession w) + 1); reflexivity.
Qed.

Lemma microStep_moves (now : Z) (w : World) :
  mouseMoves (trace (exec (microStep now) w)) =
  mouseMoves (trace w) ++ stepReport (gSession w).
Proof.
  unfold exec at 1. rewrite microStep_unfold. cbv zeta.
  unfold stepReport.
  destruct (negb _ || negb _);
    destruct (steps (gSession w) <=? i (gSession w) + 1); cbn;
    repeat rewrite mouseMoves_app; cbn; repeat rewrite app_nil_r; reflexivity.
Qed.

(** A call of the stepper either leaves session progress and trace alone
    or is a micro-step. *)
Lemma stepSessionIfDue_cases (w : World) :
  (result stepSessionIfDue w = true /\
   trace (exec stepSessionIfDue w) = trace w /\
   exists last, gSession (exec stepSessionIfDue w) = set_lastStepMs last (gSession w)) \/
  (i (gSession w) <> 0 /\
   stepSessionIfDue w = microStep (wrap32 (clock w (ticks w))) (tick w)).
Proof.
  destruct (Z.eq_dec (i (gSession w)) 0) as [Hi|Hi].
  - left. unfold result, exec. rewrite stepSessionIfDue_fresh by exact Hi.
    cbn. repeat split. eexists. reflexivity.
  - destruct (stepNotDue (wrap32 (clock w (ticks w))) (lastStepMs (gSession w))) eqn:Hd.
    + left. unfold result, exec. rewrite stepSessionIfDue_waiting by assumption.
      cbn. repeat split. exists (lastStepMs (gSession w)).
      destruct (gSession w). reflexivity.
    + right. split; [exact Hi|]. apply stepSessionIfDue_due; assumption.
Qed.

(** ** Conservation of displacement *)

Lemma microStep_owed (now : Z) (w : World) :
  owedX (exec (microStep now) w) = owedX w /\
  owedY (exec (microStep now) w) = owedY w.
Proof.
  unfold owedX, owedY. rewrite microStep_moves, microStep_session.
  rewrite sumX_app, sumY_app, stepReport_sumX, stepReport_sumY. cbn. lia.
Qed.

Lemma microStep_last (now : Z) (w : World) :
  0 <= i (gSession w) < steps (gSession w) ->
  result (microStep now) w = false ->
  i (gSession (exec (microStep now) w)) = steps (gSession w) /\
  prevX (gSession (exec (microStep now) w)) = totalDx (gSession w) /\
  prevY (gSession (exec (microStep now) w)) = totalDy (gSession w).
Proof.
  intros Hi Hr. rewrite microStep_result in Hr.
  apply negb_false_iff, Z.leb_le in Hr.
  assert (E : i (gSession w) + 1 = steps (gSession w)) by lia.
  rewrite microStep_session. cbn. rewrite E.
  rewrite !easedPos_end by lia. repeat split.
Qed.

Lemma microStep_plan (now : Z) (w : World) :
  totalDx (gSession (exec (microStep now) w)) = totalDx (gSession w) /\
  totalDy (gSession (exec (microStep now) w)) = totalDy (gSession w) /\
  steps (gSession (exec (microStep now) w)) = steps (gSession w) /\
  i (gSession (exec (microStep now) w)) = i (gSession w) + 1.
Proof. rewrite microStep_session. repeat split. Qed.

(** A burst that [runBurst] sees through to its end has sent exactly what
    was still owed when [runBurst] took over. *)
Lemma runBurst_conserves (fuel : nat) (w : World) :
  0 <= i (gSession w) < steps (gSession w) ->
  result (runBurst fuel) w = true ->
  i (gSession (exec (runBurst fuel) w)) = steps (gSession w) /\
  sumX (mouseMoves (trace (exec (runBurst fuel) w))) = owedX w /\
  sumY (mouseMoves (trace (exec (runBurst fuel) w))) = owedY w.
Proof.
  revert w. induction fuel as [|fuel IH]; intros w Hi Hr; [discriminate Hr|].
  unfold result, exec in *. rewrite runBurst_S in *.
  destruct (stepSessionIfDue_cases w) as [(Ht & Htr & last & Hs)|(Hnz & Hm)].
  - rewrite Ht in *.
    assert (Hi' : 0 <= i (gSession (exec stepSessionIfDue w))
                  < steps (gSession (exec stepSessionIfDue w)))
      by (rewrite Hs; exact Hi).
    destruct (IH _ Hi' Hr) as (H1 & H2 & H3).
    rewrite H1, H2, H3. unfold owedX, owedY. rewrite Htr, Hs. repeat split.
  - set (now := wrap32 (clock w (ticks w))) in *.
    unfold result, exec in *. rewrite Hm in *.
    destruct (microStep_owed now (tick w)) as [Hx Hy].
    destruct (microStep_plan now (tick w)) as (Hdx & Hdy & Hn & Hk).
    unfold exec in Hx, Hy, Hdx, Hdy, Hn, Hk.
    destruct (fst (microStep now (tick w))) eqn:Hres.
    + pose proof (microStep_result now (tick w)) as Hb.
      unfold result in Hb. rewrite Hres in Hb.
      symmetry in Hb. apply negb_true_iff, Z.leb_gt in Hb.
      change (gSession (tick w)) with (gSession w) in *.
      assert (Hi' : 0 <= i (gSession (snd (microStep now (tick w))))
                    < steps (gSession (snd (microStep now (tick w)))))
        by (rewrite Hn, Hk; lia).
      destruct (IH _ Hi' Hr) as (H1 & H2 & H3).
      rewrite H1, H2, H3, Hn, Hx, Hy. unfold owedX, owedY.
      change (gSession (tick w)) with (gSession w).
      change (trace (tick w)) with (trace w). repeat split.
    + destruct (microStep_last now (tick w) Hi Hres) as (H1 & H2 & H3).
      unfold exec in H1, H2, H3. cbn [snd].
      change (gSession (tick w)) with (gSession w) in *.
      split; [exact H1|].
      unfold owedX, owedY in *.
      change (gSession (tick w)) with (gSession w) in *.
      change (trace (tick w)) with (trace w) in *.
      rewrite Hdx, H2 in Hx. rewrite Hdy, H3 in Hy. lia.
Qed.

Lemma microSteps_cons (now : Z) (rest : list Z) (w : World) :
  microSteps (now :: rest) w =
  if result (microStep now) w then microSteps rest (exec (microStep now) w)
  else (true, exec (microStep now) w).
Proof.
  unfold result, exec. simpl microSteps. unfold bind, ret.
  destruct (microStep now w) as [[|] w']; reflexivity.
Qed.

(** Executed back to back, the micro-steps of a burst finish it after
    exactly the remaining number of steps and send exactly what is owed. *)
Lemma microSteps_complete (nows : list Z) (w : World) :
  0 <= i (gSession w) < steps (gSession w) ->
  Z.of_nat (length nows) = steps (gSession w) - i (gSession w) ->
  result (microSteps nows) w = true /\
  i (gSession (exec (microSteps nows) w)) = steps (gSession w) /\
  sumX (mouseMoves (trace (exec (microSteps nows) w))) = owedX w /\
  sumY (mouseMoves (trace (exec (microSteps nows) w))) = owedY w.
Proof.
  revert w. induction nows as [|now rest IH]; intros w Hi Hlen.
  - cbn in Hlen. lia.
  - unfold result, exec. rewrite microSteps_cons.
    destruct (microStep_owed now w) as [Hx Hy].
    destruct (microStep_plan now w) as (Hdx & Hdy & Hn & Hk).
    pose proof (microStep_result now w) as Hb.
    destruct (result (microStep now) w) eqn:Hres.
    + symmetry in Hb. apply negb_true_iff, Z.leb_gt in Hb.
      assert (Hi' : 0 <= i (gSession (exec (microStep now) w))
                    < steps (gSession (exec (microStep now) w)))
        by (rewrite Hn, Hk; lia).
      assert (Hlen' : Z.of_nat (length rest)
                      = steps (gSession (exec (microStep now) w))
                        - i (gSession (exec (microStep now) w)))
        by (rewrite Hn, Hk; cbn [length] in Hlen; lia).
      destruct (IH _ Hi' Hlen') as (H0 & H1 & H2 & H3).
      unfold result, exec in H0, H1, H2, H3 |- *.
      rewrite H0, H1, H2, H3. unfold exec in Hn, Hx, Hy. rewrite Hn, Hx, Hy.
      repeat split.
    + destruct (microStep_last now w Hi Hres) as (H1 & H2 & H3).
      cbn [fst snd]. split; [reflexivity|]. split; [exact H1|].
      unfold owedX, owedY in *. rewrite Hdx, H2 in Hx. rewrite Hdy, H3 in Hy.
      lia.
Qed.

(** ** The first step of a fresh burst *)

(** C1 (the code departs from the claim).  On a burst as [beginSession]
    leaves it, the first call of [stepSessionIfDue] stamps
    [lastStepMs = now], finds [now - lastStepMs = 0 < kStepInterval] and
    returns [true] without taking the first micro-step: the index stays 0
    and nothing is written or sent.  The same happens at every later call,
    so the burst never finishes, however many calls are made. *)
Theorem fresh_burst_first_step_not_taken (w : World) (fuel : nat) :
  let w0 := exec beginSession w in
  (result stepSessionIfDue w0 = true /\
   i (gSession (exec stepSessionIfDue w0)) = 0 /\
   prevX (gSession (exec stepSessionIfDue w0)) = 0 /\
   prevY (gSession (exec stepSessionIfDue w0)) = 0 /\
   trace (exec stepSessionIfDue w0) = trace w) /\
  (result (runBurst fuel) w0 = false /\
   i (gSession (exec (runBurst fuel) w0)) = 0 /\
   trace (exec (runBurst fuel) w0) = trace w).
Proof.
  intros w0. destruct (beginSession_fresh w) as (_ & Hi & Hx & Hy & Ht).
  fold w0 in Hi, Hx, Hy, Ht. clearbody w0. split.
  - unfold result, exec. rewrite (stepSessionIfDue_fresh w0 Hi).
    cbn. rewrite Hi, Hx, Hy, Ht. repeat split.
  - destruct (runBurst_fresh fuel w0 Hi) as (H1 & H2 & H3 & _).
    rewrite H1, H2, H3, Ht. repeat split.
Qed.

(** ** The inter-step gate *)

(** C5.  On a burst whose index is at least 1, a call made while
    [now - lastStepMs < kStepInterval] (unsigned 32-bit difference) sends
    no motion report, changes nothing but the clock reading it consumed,
    and reports [true]. *)
Theorem step_gate_holds (w : World) :
  1 <= i (gSession w) ->
  wrap32 (wrap32 (clock w (ticks w)) - lastStepMs (gSession w)) < kStepInterval ->
  result stepSessionIfDue w = true /\
  exec stepSessionIfDue w = tick w /\
  trace (exec stepSessionIfDue w) = trace w /\
  gSession (exec stepSessionIfDue w) = gSession w /\
  gState (exec stepSessionIfDue w) = gState w /\
  gNextActionMs (exec stepSessionIfDue w) = gNextActionMs w.
Proof.
  intros Hi Hd. unfold result, exec.
  rewrite stepSessionIfDue_waiting.
  - repeat split.
  - lia.
  - unfold stepNotDue. apply Z.ltb_lt. exact Hd.
Qed.

Lemma step_gate_holds_witness :
  1 <= i (gSession earlyWorld) /\
  result stepSessionIfDue earlyWorld = true /\
  gSession (exec stepSessionIfDue earlyWorld) = halfwaySession /\
  trace (exec stepSessionIfDue earlyWorld) = [].
Proof.
  assert (H1 : 1 <= i (gSession earlyWorld)) by by_eval.
  assert (H2 : wrap32 (wrap32 (clock earlyWorld (ticks earlyWorld))
                       - lastStepMs (gSession earlyWorld)) < kStepInterval)
    by by_eval.
  destruct (step_gate_holds earlyWorld H1 H2) as (R & _ & T & S & _).
  split; [exact H1|]. split; [exact R|]. split; [exact S | exact T].
Defined.

(** ** Conservation of displacement over a burst *)

Lemma runBurst_last_step (fuel : nat) (w : World) :
  i (gSession w) <> 0 ->
  stepNotDue (wrap32 (clock w (ticks w))) (lastStepMs (gSession w)) = false ->
  steps (gSession w) <= i (gSession w) + 1 ->
  result (runBurst (S fuel)) w = true.
Proof.
  intros Hi Hd Hn. unfold result. rewrite runBurst_S. unfold result, exec.
  rewrite stepSessionIfDue_due by assumption.
  pose proof (microStep_result (wrap32 (clock w (ticks w))) (tick w)) as Hr.
  unfold result in Hr. rewrite Hr.
  change (gSession (tick w)) with (gSession w).
  apply Z.leb_le in Hn. rewrite Hn. reflexivity.
Qed.

(** C2.  For a burst of [N >= 1] steps with a plan in the sampled range:
    (a) whenever calls of [stepSessionIfDue] bring the burst to its end
    (index [= N]), the reports sent on the way sum to the plan minus what
    had been sent before, so to exactly [(totalDx, totalDy)] for a burst
    taken from its start; (b) the [N] micro-steps of a fresh burst, executed
    in a row, bring the index to [N] and send reports summing to exactly
    [(totalDx, totalDy)]. *)
Theorem burst_displacement_conserved :
  (forall (fuel : nat) (w : World),
      1 <= steps (gSession w) ->
      0 <= i (gSession w) < steps (gSession w) ->
      - kMoveRangePx <= totalDx (gSession w) <= kMoveRangePx ->
      - kMoveRangePx <= totalDy (gSession w) <= kMoveRangePx ->
      result (runBurst fuel) w = true ->
      i (gSession (exec (runBurst fuel) w)) = steps (gSession w) /\
      sumX (mouseMoves (trace (exec (runBurst fuel) w)))
      - sumX (mouseMoves (trace w))
      = totalDx (gSession w) - prevX (gSession w) /\
      sumY (mouseMoves (trace (exec (runBurst fuel) w)))
      - sumY (mouseMoves (trace w))
      = totalDy (gSession w) - prevY (gSession w)) /\
  (forall (nows : list Z) (w : World),
      1 <= steps (gSession w) ->
      i (gSession w) = 0 ->
      prevX (gSession w) = 0 ->
      prevY (gSession w) = 0 ->
      - kMoveRangePx <= totalDx (gSession w) <= kMoveRangePx ->
      - kMoveRangePx <= totalDy (gSession w) <= kMoveRangePx ->
      Z.of_nat (length nows) = steps (gSession w) ->
      result (microSteps nows) w = true /\
      i (gSession (exec (microSteps nows) w)) = steps (gSession w) /\
      sumX (mouseMoves (trace (exec (microSteps nows) w)))
      - sumX (mouseMoves (trace w)) = totalDx (gSession w) /\
      sumY (mouseMoves (trace (exec (microSteps nows) w)))
      - sumY (mouseMoves (trace w)) = totalDy (gSession w)).
Proof.
  split.
  - intros fuel w _ Hi _ _ Hr.
    destruct (runBurst_conserves fuel w Hi Hr) as (H1 & H2 & H3).
    rewrite H1, H2, H3. unfold owedX, owedY. repeat split; lia.
  - intros nows w Hn Hi Hx Hy _ _ Hlen.
    destruct (microSteps_complete nows w) as (H0 & H1 & H2 & H3); [lia|lia|].
    rewrite H0, H1, H2, H3. unfold owedX, owedY. rewrite Hx, Hy.
    repeat split; lia.
Qed.

Lemma burst_displacement_conserved_witness :
  (result (runBurst 1) dueWorld = true /\
   i (gSession (exec (runBurst 1) dueWorld)) = 2 /\
   sumX (mouseMoves (trace (exec (runBurst 1) dueWorld))) - 0 = 10 - 5 /\
   sumY (mouseMoves (trace (exec (runBurst 1) dueWorld))) - 0 = 0 - 0) /\
  (result (microSteps [1000; 1005]) scenarioWorld = true /\
   i (gSession (exec (microSteps [1000; 1005]) scenarioWorld)) = 2 /\
   sumX (mouseMoves (trace (exec (microSteps [1000; 1005]) scenarioWorld))) - 0 = 10 /\
   sumY (mouseMoves (trace (exec (microSteps [1000; 1005]) scenarioWorld))) - 0 = 0).
Proof.
  split.
  - assert (Hr : result (runBurst 1) dueWorld = true).
    { apply runBurst_last_step; by_eval. }
    split; [exact Hr|].
    apply (proj1 burst_displacement_conserved 1%nat dueWorld);
      try exact Hr; by_eval.
  - apply (proj2 burst_displacement_conserved [1000; 1005] scenarioWorld);
      by_eval.
Defined.

(** ** The 10-pixel, 2-step scenario *)

Lemma stepReport_scenario_1 : stepReport (freshSession 10 0 2) = [(5, 0)].
Proof.
  unfold stepReport. cbn [freshSession totalDx totalDy steps prevX prevY i].
  change (0 + 1) with 1. rewrite easedPos_10_half, easedPos_zero. reflexivity.
Qed.

Lemma stepReport_scenario_2 (last : Z) :
  stepReport (mkSession 10 0 2 5 0 1 last) = [(5, 0)].
Proof.
  unfold stepReport. cbn [totalDx totalDy steps prevX prevY i].
  change (1 + 1) with 2. rewrite easedPos_end, easedPos_zero by lia. reflexivity.
Qed.

(** The arithmetic of the 10-pixel, 2-step scenario, on the micro-step
    proper (lines 104-135) and leaving aside how a call gets there: the
    first micro-step (index 1, [t = 1/2], eased progress [1/2]) sends the
    report [(5, 0)] and the second (index 2, [t = 1], eased progress 1)
    sends [(5, 0)] again and ends the burst.  Through [stepSessionIfDue]
    only the second of them can be reached, from a burst already at
    index 1. *)
Theorem scenario_10_in_2_steps (w : World) (now1 now2 : Z) :
  let w0 := set_gSession (freshSession 10 0 2) w in
  let w1 := exec (microStep now1) w0 in
  let w2 := exec (microStep now2) w1 in
  easeCosine01 (IZR 1 / IZR 2) = (1 / 2)%R /\
  easeCosine01 (IZR 2 / IZR 2) = 1%R /\
  result (microStep now1) w0 = true /\
  trace w1 = trace w ++ [MouseMove 5 0 0 0] /\
  gSession w1 = mkSession 10 0 2 5 0 1 now1 /\
  result (microStep now2) w1 = false /\
  trace w2 = trace w1 ++ [MouseMove 5 0 0 0; DigitalWrite kLedPin HIGH;
                          Delay 100; DigitalWrite kLedPin LOW] /\
  gSession w2 = mkSession 10 0 2 10 0 2 now2 /\
  mouseMoves (trace w2) = mouseMoves (trace w) ++ [(5, 0); (5, 0)] /\
  result stepSessionIfDue dueWorld = false /\
  mouseMoves (trace (exec stepSessionIfDue dueWorld)) = [(5, 0)] /\
  prevX (gSession (exec stepSessionIfDue dueWorld)) = 10.
Proof.
  intros w0 w1 w2.
  assert (E3 : stepSessionIfDue dueWorld = microStep 1005 (tick dueWorld))
    by (apply stepSessionIfDue_due; by_eval).
  assert (E1 : microStep now1 w0
               = (true, set_gSession (mkSession 10 0 2 5 0 1 now1)
                          (emit (MouseMove 5 0 0 0) w0))).
  { rewrite microStep_unfold. cbv zeta.
    change (gSession w0) with (freshSession 10 0 2).
    rewrite stepReport_scenario_1. unfold afterStep.
    cbn [freshSession totalDx totalDy steps prevX prevY i set_lastStepMs].
    change (0 + 1) with 1. rewrite easedPos_10_half, easedPos_zero. reflexivity. }
  assert (H1 : w1 = set_gSession (mkSession 10 0 2 5 0 1 now1)
                      (emit (MouseMove 5 0 0 0) w0)).
  { unfold w1, exec. rewrite E1. reflexivity. }
  assert (E2 : microStep now2 w1
               = (false,
                  exec scheduleNextIdleWindow
                    (set_gState IDLE
                       (emit (DigitalWrite kLedPin LOW)
                          (emit (Delay 100)
                             (emit (DigitalWrite kLedPin HIGH)
                                (set_gSession (mkSession 10 0 2 10 0 2 now2)
                                   (emit (MouseMove 5 0 0 0) w1)))))))).
  { rewrite microStep_unfold. cbv zeta.
    replace (gSession w1) with (mkSession 10 0 2 5 0 1 now1)
      by (rewrite H1; reflexivity).
    rewrite stepReport_scenario_2. unfold afterStep.
    cbn [totalDx totalDy steps prevX prevY i set_lastStepMs].
    change (1 + 1) with 2. rewrite easedPos_end, easedPos_zero by lia.
    reflexivity. }
  assert (H2 : trace w2 = trace w1 ++ [MouseMove 5 0 0 0; DigitalWrite kLedPin HIGH;
                                       Delay 100; DigitalWrite kLedPin LOW]).
  { unfold w2, exec. rewrite E2. cbn. repeat rewrite <- app_assoc. reflexivity. }
  split. { replace (IZR 1 / IZR 2)%R with (1 / 2)%R by lra. apply easeCosine01_half. }
  split. { replace (IZR 2 / IZR 2)%R with 1%R by lra. apply easeCosine01_1. }
  split. { unfold result. rewrite E1. reflexivity. }
  split. { rewrite H1. reflexivity. }
  split. { rewrite H1. reflexivity. }
  split. { unfold result. rewrite E2. reflexivity. }
  split. { exact H2. }
  split. { unfold w2, exec. rewrite E2. reflexivity. }
  split.
  { rewrite H2, H1. cbn [trace emit set_gSession w0].
    repeat rewrite mouseMoves_app. cbn. rewrite <- app_assoc. reflexivity. }
  unfold result, exec. rewrite E3.
  pose proof (microStep_result 1005 (tick dueWorld)) as Hr.
  pose proof (microStep_moves 1005 (tick dueWorld)) as Hm.
  pose proof (microStep_session 1005 (tick dueWorld)) as Hs.
  unfold result, exec in Hr, Hm, Hs. rewrite Hr, Hm, Hs.
  change (gSession (tick dueWorld)) with (mkSession 10 0 2 5 0 1 1000).
  rewrite stepReport_scenario_2. unfold afterStep.
  cbn [totalDx totalDy steps prevX prevY i set_lastStepMs set_progress].
  change (1 + 1) with 2. rewrite easedPos_end by lia. repeat split.
Qed.


(** ** A burst with a zero plan *)

(** Taken on their own, the micro-steps of a zero-plan burst send nothing
    and still count: the step accounting does not depend on a report
    having been sent. *)
Lemma microStep_zero_plan (now : Z) (w : World) :
  totalDx (gSession w) = 0 -> totalDy (gSession w) = 0 ->
  prevX (gSession w) = 0 -> prevY (gSession w) = 0 ->
  mouseMoves (trace (exec (microStep now) w)) = mouseMoves (trace w) /\
  i (gSession (exec (microStep now) w)) = i (gSession w) + 1 /\
  prevX (gSession (exec (microStep now) w)) = 0 /\
  prevY (gSession (exec (microStep now) w)) = 0.
Proof.
  intros Hx Hy Px Py. rewrite microStep_moves, microStep_session.
  unfold stepReport, afterStep. cbn. rewrite Hx, Hy, Px, Py, !easedPos_zero.
  cbn. rewrite app_nil_r. repeat split.
Qed.

(** C10 (the code departs from the claim).  With entropy that makes
    [beginSession] sample [totalDx = totalDy = 0] and [steps = 20], and a
    clock that advances one second per reading, the burst begins at the
    11th poll; 89 polls later it has sent no report, but it has not
    advanced either: the index is still 0, the mode is still [MOVING], the
    only indicator write of the whole run is the [LOW] of [setup()] (no
    completion pulse), and the deadline is still the one [setup()]
    scheduled (no new idle window). *)
Theorem zero_burst_never_advances :
  let w := run (steadyClock 0 1000) zeroBurstEntropy 100 in
  gState (run (steadyClock 0 1000) zeroBurstEntropy 10) = IDLE /\
  gState (run (steadyClock 0 1000) zeroBurstEntropy 11) = MOVING /\
  gState w = MOVING /\
  gSession w = mkSession 0 0 20 0 0 0 201000 /\
  mouseMoves (trace w) = [] /\
  digitalWrites (trace w) = [(kLedPin, LOW)] /\
  gNextActionMs w = 23000 /\
  draws w = 4%nat.
Proof. vm_compute. repeat split. Qed.

(** ** The run budget *)

Lemma ledLevel_after_hold (tr : list Output) (l : bool) :
  ledLevel (tr ++ [DigitalWrite kLedPin HIGH] ++ [Delay 1000]) l = true.
Proof. rewrite ledLevel_app. reflexivity. Qed.

(** What a poll past the budget leaves behind. *)
Lemma loop_expired_effect (w : World) :
  budgetExpired (wrap32 (clock w (ticks w))) (gStartMs w) = true ->
  ledOn (exec loop w) = true /\
  mouseMoves (trace (exec loop w)) = mouseMoves (trace w) /\
  gState (exec loop w) = gState w /\
  gSession (exec loop w) = gSession w /\
  gNextActionMs (exec loop w) = gNextActionMs w /\
  gStartMs (exec loop w) = gStartMs w /\
  draws (exec loop w) = draws w /\
  clock (exec loop w) = clock w /\
  ticks (exec loop w) = S (ticks w).
Proof.
  intros H. unfold exec. rewrite (loop_expired w H). cbn [snd]. split.
  - unfold ledOn. cbn [trace emit tick]. rewrite <- app_assoc.
    apply ledLevel_after_hold.
  - cbn. rewrite <- app_assoc, mouseMoves_app. cbn. rewrite app_nil_r.
    repeat split.
Qed.

Lemma loops_expired_effect (n : nat) (w : World) (T0 : Z) :
  gStartMs w = wrap32 T0 ->
  (forall k, (k < n)%nat ->
             limitMs <= clock w (ticks w + k) - T0 < 2 ^ 32) ->
  (0 < n)%nat ->
  ledOn (exec (loops n) w) = true /\
  mouseMoves (trace (exec (loops n) w)) = mouseMoves (trace w) /\
  gState (exec (loops n) w) = gState w /\
  gSession (exec (loops n) w) = gSession w /\
  gNextActionMs (exec (loops n) w) = gNextActionMs w.
Proof.
  revert w. induction n as [|n IH]; intros w Hs Hc Hn; [lia|].
  assert (Hb : budgetExpired (wrap32 (clock w (ticks w))) (gStartMs w) = true).
  { unfold budgetExpired. rewrite Hs. apply Z.leb_le.
    pose proof (Hc 0%nat ltac:(lia)) as H0. rewrite Nat.add_0_r in H0.
    unfold limitMs, kHoursToRun in *. rewrite wrap32_elapsed; lia. }
  destruct (loop_expired_effect w Hb)
    as (L & Mv & St & Se & Nx & Sm & _ & Ck & Tk).
  rewrite loops_S. destruct n as [|n].
  - cbn [loops]. unfold exec at 1 3 5 7 9. cbn [ret snd].
    rewrite L, Mv, St, Se, Nx. repeat split.
  - destruct (IH (exec loop w)) as (L' & Mv' & St' & Se' & Nx').
    + rewrite Sm. exact Hs.
    + intros k Hk. rewrite Ck, Tk.
      replace (S (ticks w) + k)%nat with (ticks w + S k)%nat by lia.
      apply Hc. lia.
    + lia.
    + rewrite L', Mv', St', Se', Nx', Mv, St, Se, Nx. repeat split.
Qed.

(** C3, as the code has it.  A poll whose 32-bit elapsed reading
    [millis() - gStartMs] is at least the budget (equality included) sets
    the indicator on, sends no motion report and leaves mode, session and
    schedule untouched, whatever they are; and this goes on at every later
    poll for as long as the true time since [setup()] stays below [2^32]
    ms.  The condition is recomputed from the clock at each poll and is
    not latched. *)
Theorem budget_cutoff :
  (forall w : World,
      limitMs <= wrap32 (wrap32 (clock w (ticks w)) - gStartMs w) ->
      ledOn (exec loop w) = true /\
      mouseMoves (trace (exec loop w)) = mouseMoves (trace w) /\
      gState (exec loop w) = gState w /\
      gSession (exec loop w) = gSession w /\
      gNextActionMs (exec loop w) = gNextActionMs w) /\
  (forall (n : nat) (w : World) (T0 : Z),
      gStartMs w = wrap32 T0 ->
      (forall k, (k < n)%nat ->
                 limitMs <= clock w (ticks w + k) - T0 < 2 ^ 32) ->
      (0 < n)%nat ->
      ledOn (exec (loops n) w) = true /\
      mouseMoves (trace (exec (loops n) w)) = mouseMoves (trace w) /\
      gState (exec (loops n) w) = gState w /\
      gSession (exec (loops n) w) = gSession w /\
      gNextActionMs (exec (loops n) w) = gNextActionMs w).
Proof.
  split.
  - intros w H.
    destruct (loop_expired_effect w) as (L & Mv & St & Se & Nx & _).
    + unfold budgetExpired. apply Z.leb_le. exact H.
    + repeat split; assumption.
  - intros n w T0. apply loops_expired_effect.
Qed.

Lemma budget_cutoff_witness :
  (ledOn (exec loop expiredWorld) = true /\
   mouseMoves (trace (exec loop expiredWorld)) = [] /\
   gState (exec loop expiredWorld) = MOVING /\
   gSession (exec loop expiredWorld) = halfwaySession /\
   gNextActionMs (exec loop expiredWorld) = 22000) /\
  (ledOn (exec (loops 3) expiredWorld) = true /\
   mouseMoves (trace (exec (loops 3) expiredWorld)) = [] /\
   gState (exec (loops 3) expiredWorld) = MOVING /\
   gSession (exec (loops 3) expiredWorld) = halfwaySession /\
   gNextActionMs (exec (loops 3) expiredWorld) = 22000).
Proof.
  split.
  - apply (proj1 budget_cutoff expiredWorld). by_eval.
  - apply (proj2 budget_cutoff 3%nat expiredWorld 0).
    + reflexivity.
    + intros k Hk.
      destruct k as [|[|[|k]]]; [by_eval | by_eval | by_eval | lia].
    + lia.
Defined.

(** C3, as stated, fails: on [wrapClock] the first poll finds the elapsed
    time equal to the budget and holds the indicator on; the second poll
    comes after the 32-bit counter has wrapped, reads an elapsed time of
    22000 ms, and the controller is back at work: it finds the deadline
    reached and begins a burst. *)
Lemma budget_cutoff_not_latched :
  wrap32 (wrap32 (wrapClock 2) - gStartMs (run wrapClock (constEntropy 0) 0)) = limitMs /\
  ledOn (run wrapClock (constEntropy 0) 1) = true /\
  gState (run wrapClock (constEntropy 0) 1) = IDLE /\
  draws (run wrapClock (constEntropy 0) 1) = 1%nat /\
  wrapClock 2 < wrapClock 3 /\
  wrap32 (wrap32 (wrapClock 3) - gStartMs (run wrapClock (constEntropy 0) 1)) = 22000 /\
  gState (run wrapClock (constEntropy 0) 2) = MOVING /\
  draws (run wrapClock (constEntropy 0) 2) = 4%nat /\
  gSession (run wrapClock (constEntropy 0) 2) = freshSession (-100) (-100) 20.
Proof. vm_compute. repeat split. Qed.

(** ** Time comparisons and counter wraparound *)

Lemma wrap32_same_period (a b : Z) :
  a / 2 ^ 32 = b / 2 ^ 32 -> wrap32 a - wrap32 b = a - b.
Proof.
  intros H. unfold wrap32.
  pose proof (Z.div_mod a (2 ^ 32) ltac:(lia)) as Ha.
  pose proof (Z.div_mod b (2 ^ 32) ltac:(lia)) as Hb.
  rewrite H in Ha. lia.
Qed.

(** C4, as the code has it.  With [T0 <= T] the true times behind two
    readings: the budget test and the inter-step gate subtract first and
    compare the difference, and give the answer of the true elapsed time
    whenever that time is below [2^32] ms, wrapped counter or not.  The
    idle-deadline test compares the reading with the stored deadline
    directly; it gives the answer of the true times when both lie in the
    same [2^32]-ms period of the counter. *)
Theorem time_comparisons :
  (forall T0 T : Z,
      0 <= T - T0 < 2 ^ 32 ->
      budgetExpired (wrap32 T) (wrap32 T0) = (limitMs <=? T - T0)) /\
  (forall T0 T : Z,
      0 <= T - T0 < 2 ^ 32 ->
      stepNotDue (wrap32 T) (wrap32 T0) = (T - T0 <? kStepInterval)) /\
  (forall T D : Z,
      T / 2 ^ 32 = D / 2 ^ 32 ->
      deadlineReached (wrap32 T) (wrap32 D) = (D <=? T)).
Proof.
  repeat split.
  - intros T0 T H. unfold budgetExpired. rewrite wrap32_elapsed by exact H.
    reflexivity.
  - intros T0 T H. unfold stepNotDue. rewrite wrap32_elapsed by exact H.
    reflexivity.
  - intros T D H. unfold deadlineReached.
    pose proof (wrap32_same_period T D H) as E.
    destruct (wrap32 D <=? wrap32 T) eqn:E1; destruct (D <=? T) eqn:E2;
      try reflexivity; lia.
Qed.

Lemma time_comparisons_witness :
  budgetExpired (wrap32 (2 ^ 32 + 5)) (wrap32 (2 ^ 32 - 3)) = false /\
  stepNotDue (wrap32 (2 ^ 32 + 5)) (wrap32 (2 ^ 32 - 3)) = false /\
  deadlineReached (wrap32 30000) (wrap32 22000) = true.
Proof.
  split; [|split].
  - rewrite (proj1 time_comparisons (2 ^ 32 - 3) (2 ^ 32 + 5)); by_eval.
  - rewrite (proj1 (proj2 time_comparisons) (2 ^ 32 - 3) (2 ^ 32 + 5)); by_eval.
  - rewrite (proj2 (proj2 time_comparisons) 30000 22000); by_eval.
Defined.

(** C4, as stated, fails: the idle-deadline test is an absolute
    comparison.  A window scheduled 10 s before the counter wraps, with a
    pause of 22 s, stores the deadline 12000; one millisecond later the
    reading is [2^32 - 9999 >= 12000] and the test answers "reached",
    21999 ms early.  In the program: [loop], polled right after
    [scheduleNextIdleWindow], begins a burst at once. *)
Lemma deadline_test_not_wraparound_safe :
  wrap32 (2 ^ 32 - 10000 + kMinPauseMs) = 12000 /\
  deadlineReached (wrap32 (2 ^ 32 - 9999)) (wrap32 (2 ^ 32 - 10000 + kMinPauseMs)) = true /\
  (2 ^ 32 - 10000 + kMinPauseMs <=? 2 ^ 32 - 9999) = false /\
  gNextActionMs (exec scheduleNextIdleWindow nearWrapWorld) = 12000 /\
  gState (exec scheduleNextIdleWindow nearWrapWorld) = IDLE /\
  gState (exec loop (exec scheduleNextIdleWindow nearWrapWorld)) = MOVING.
Proof. vm_compute. repeat split. Qed.

(** ** The idle window *)

Lemma pause_range (w : World) :
  kMinPauseMs <= result (random kMinPauseMs kMaxPauseMs) w < kMaxPauseMs.
Proof. apply random_range. reflexivity. Qed.

Lemma scheduleNextIdleWindow_deadline (w : World) :
  gNextActionMs (exec scheduleNextIdleWindow w)
  = wrap32 (wrap32 (clock w (ticks w))
            + result (random kMinPauseMs kMaxPauseMs) (tick w)).
Proof. reflexivity. Qed.


(** C7, as the code has it.  With [now] the reading [millis()] returns
    inside [scheduleNextIdleWindow]: the new deadline is [now] plus the
    pause modulo [2^32], so the unsigned distance from [now] to the
    deadline lies in [[kMinPauseMs, kMaxPauseMs]] for every clock and
    every entropy; the deadline itself lies in
    [[now + kMinPauseMs, now + kMaxPauseMs]] whenever that interval ends
    below [2^32]. *)
Theorem next_deadline_window (w : World) :
  let now := wrap32 (clock w (ticks w)) in
  let deadline := gNextActionMs (exec scheduleNextIdleWindow w) in
  kMinPauseMs <= wrap32 (deadline - now) <= kMaxPauseMs /\
  (now + kMaxPauseMs < 2 ^ 32 ->
   now + kMinPauseMs <= deadline <= now + kMaxPauseMs).
Proof.
  intros now deadline. unfold deadline. rewrite scheduleNextIdleWindow_deadline.
  fold now. pose proof (pause_range (tick w)) as Hp.
  pose proof (wrap32_range (clock w (ticks w))) as Hn. fold now in Hn.
  set (p := result (random kMinPauseMs kMaxPauseMs) (tick w)) in *.
  unfold kMinPauseMs, kMaxPauseMs in *. split.
  - rewrite wrap32_sub_l. replace (now + p - now) with p by lia.
    rewrite wrap32_small; lia.
  - intros H. rewrite wrap32_small; lia.
Qed.

Lemma next_deadline_window_witness :
  wrap32 (clock earlyIdleWorld (ticks earlyIdleWorld)) + kMaxPauseMs < 2 ^ 32 /\
  1000 + kMinPauseMs
  <= gNextActionMs (exec scheduleNextIdleWindow earlyIdleWorld)
  <= 1000 + kMaxPauseMs.
Proof.
  assert (H : wrap32 (clock earlyIdleWorld (ticks earlyIdleWorld)) + kMaxPauseMs
              < 2 ^ 32) by by_eval.
  split; [exact H|].
  exact (proj2 (next_deadline_window earlyIdleWorld) H).
Defined.

(** C7, as stated, fails: scheduled at the last reading before the
    counter wraps, the deadline is 21999, far below [now + kMinPauseMs]. *)
Lemma next_deadline_wraps :
  wrap32 (clock lastTickWorld (ticks lastTickWorld)) = 2 ^ 32 - 1 /\
  gNextActionMs (exec scheduleNextIdleWindow lastTickWorld) = 21999 /\
  (2 ^ 32 - 1 + kMinPauseMs
   <=? gNextActionMs (exec scheduleNextIdleWindow lastTickWorld)) = false.
Proof. vm_compute. repeat split. Qed.

(** ** The mode invariant *)

(** There are only two modes, so the invariant reduces to the [MOVING]
    clause plus a scheduled deadline whenever the mode is [IDLE]. *)
Lemma modeInv_intro (w : World) :
  (gState w = MOVING <-> live (gSession w)) ->
  (gState w = IDLE -> scheduled w) ->
  0 <= gNextActionMs w < 2 ^ 32 ->
  modeInv w.
Proof.
  intros H Hsch Hd. unfold modeInv. split; [exact H|]. split; [|exact Hd].
  destruct (gState w) eqn:Hs; split.
  - intros _. split; [|apply Hsch; reflexivity].
    intros Hl. apply H in Hl. discriminate Hl.
  - reflexivity.
  - discriminate.
  - intros [Hn _]. exfalso. apply Hn, H. reflexivity.
Qed.

(** A deadline stays scheduled as long as the deadline itself and the
    oracles are left alone and the counts of readings and draws do not
    go back. *)
Lemma scheduled_keep (w w' : World) :
  clock w' = clock w -> entropy w' = entropy w ->
  (ticks w <= ticks w')%nat -> (draws w <= draws w')%nat ->
  gNextActionMs w' = gNextActionMs w ->
  scheduled w -> scheduled w'.
Proof.
  intros Hc He Ht Hd Hn (k & d & Hk & Hdr & E).
  exists k, d. rewrite Hc, He, Hn. repeat split; first [lia | exact E].
Qed.

Lemma scheduleNextIdleWindow_scheduled (w : World) :
  scheduled (exec scheduleNextIdleWindow w).
Proof.
  exists (ticks w), (draws w). rewrite scheduleNextIdleWindow_unfold.
  cbn [ticks draws clock entropy gNextActionMs set_gNextActionMs draw tick].
  repeat split; lia.
Qed.

(** The invariant only looks at mode, index, step count, deadline and
    the bookkeeping of the oracles. *)
Lemma modeInv_frame (w w' : World) :
  gState w' = gState w ->
  i (gSession w') = i (gSession w) ->
  steps (gSession w') = steps (gSession w) ->
  clock w' = clock w -> entropy w' = entropy w ->
  (ticks w <= ticks w')%nat -> (draws w <= draws w')%nat ->
  gNextActionMs w' = gNextActionMs w ->
  modeInv w -> modeInv w'.
Proof.
  intros Hs Hi Hn Hc He Ht Hd Hg (Hm & Hidle & Hr).
  apply modeInv_intro.
  - unfold live in *. rewrite Hs, Hi, Hn. exact Hm.
  - intros Hst. rewrite Hs in Hst.
    apply (scheduled_keep w w'); try assumption. apply Hidle, Hst.
  - rewrite Hg. exact Hr.
Qed.

Lemma scheduleNextIdleWindow_modeInv (w : World) :
  (gState w = MOVING <-> live (gSession w)) ->
  modeInv (exec scheduleNextIdleWindow w).
Proof.
  intros H. apply modeInv_intro.
  - rewrite scheduleNextIdleWindow_unfold. exact H.
  - intros _. apply scheduleNextIdleWindow_scheduled.
  - rewrite scheduleNextIdleWindow_unfold. apply wrap32_range.
Qed.

Lemma beginSession_modeInv (w : World) :
  0 <= gNextActionMs w < 2 ^ 32 -> modeInv (exec beginSession w).
Proof.
  intros Hd. apply modeInv_intro.
  - rewrite beginSession_unfold.
    unfold live, set_gState, set_gSession, freshSession.
    cbn [gState gSession i steps].
    pose proof (Z.mod_pos_bound (entropy w (S (S (draws w))))
                  (kMaxSteps + 1 - kMinSteps) eq_refl).
    unfold kMinSteps, kMaxSteps in *.
    split; [intros _|reflexivity]. lia.
  - rewrite beginSession_unfold. discriminate.
  - rewrite beginSession_unfold. exact Hd.
Qed.

Lemma microStep_modeInv (now : Z) (w : World) :
  modeInv w -> modeInv (exec (microStep now) w).
Proof.
  intros (Hm & Hi & Hd). unfold exec. rewrite microStep_unfold. cbv zeta.
  destruct (steps (gSession w) <=? i (gSession w) + 1) eqn:E.
  - apply Z.leb_le in E. cbn [snd]. apply scheduleNextIdleWindow_modeInv.
    unfold live. cbn. split; [discriminate|lia].
  - apply Z.leb_gt in E. cbn [snd].
    assert (Hs : gState (match stepReport (gSession w) with
                         | [] => w
                         | (dx, dy) :: _ => emit (MouseMove dx dy 0 0) w
                         end) = gState w)
      by (destruct (stepReport (gSession w)) as [|[dx dy] rest]; reflexivity).
    assert (Hmov : gState w = MOVING).
    { destruct (gState w) eqn:Hst; [|reflexivity].
      exfalso. apply (proj1 (proj1 Hi eq_refl)). unfold live. lia. }
    apply modeInv_intro.
    + unfold live. cbn. rewrite Hs. split; [intros _; exact E|].
      intros _. exact Hmov.
    + cbn [gState set_gSession]. rewrite Hs, Hmov. discriminate.
    + assert (Hn : gNextActionMs
                     (set_gSession (afterStep now (gSession w))
                        (match stepReport (gSession w) with
                         | [] => w
                         | (dx, dy) :: _ => emit (MouseMove dx dy 0 0) w
                         end)) = gNextActionMs w)
        by (destruct (stepReport (gSession w)) as [|[dx dy] rest]; reflexivity).
      rewrite Hn. exact Hd.
Qed.

Lemma tick_modeInv (w : World) : modeInv w -> modeInv (tick w).
Proof.
  apply modeInv_frame; try reflexivity; cbn [ticks tick draws]; lia.
Qed.

Lemma emit_modeInv (o : Output) (w : World) : modeInv w -> modeInv (emit o w).
Proof. apply modeInv_frame; try reflexivity; lia. Qed.

Lemma stepSessionIfDue_modeInv (w : World) :
  modeInv w -> modeInv (exec stepSessionIfDue w).
Proof.
  intros H. destruct (Z.eq_dec (i (gSession w)) 0) as [Hi|Hi].
  - unfold exec. rewrite stepSessionIfDue_fresh by exact Hi. cbn [snd].
    revert H. apply modeInv_frame; try reflexivity; cbn [ticks tick draws set_gSession]; lia.
  - destruct (stepNotDue (wrap32 (clock w (ticks w))) (lastStepMs (gSession w))) eqn:Hd.
    + unfold exec. rewrite stepSessionIfDue_waiting by assumption.
      apply tick_modeInv, H.
    + unfold exec. rewrite stepSessionIfDue_due by assumption.
      apply (microStep_modeInv _ (tick w)). apply tick_modeInv, H.
Qed.

Lemma loop_modeInv (w : World) : modeInv w -> modeInv (exec loop w).
Proof.
  intros H. destruct (loop_cases w) as [E|[E|[E|[_ E]]]]; rewrite E.
  - apply emit_modeInv, emit_modeInv, tick_modeInv, H.
  - apply emit_modeInv, tick_modeInv, tick_modeInv, H.
  - apply beginSession_modeInv. apply H.
  - apply emit_modeInv, (stepSessionIfDue_modeInv (tick w)), tick_modeInv, H.
Qed.

Lemma setup_modeInv (clk rnd : nat -> Z) : modeInv (exec setup (boot clk rnd)).
Proof.
  apply modeInv_intro.
  - unfold live. cbn. split; [discriminate|lia].
  - intros _. exists 1%nat, 0%nat. repeat split; cbn; lia.
  - apply wrap32_range.
Qed.

Lemma loops_modeInv (n : nat) (w : World) :
  modeInv w -> modeInv (exec (loops n) w).
Proof.
  revert w. induction n as [|n IH]; intros w H; [exact H|].
  rewrite loops_S. apply IH, loop_modeInv, H.
Qed.

(** C6.  The mode is [MOVING] exactly when the session is live
    ([i < steps]); it is [IDLE] exactly when the session is not live and
    the deadline is well defined, that is, was computed by
    [scheduleNextIdleWindow] from a reading and a draw already taken.
    This holds once [setup()] has run (not before: at power-up no
    deadline has been scheduled), each of [scheduleNextIdleWindow],
    [beginSession], [stepSessionIfDue] and [loop] preserves it, and so it
    holds in every state the program reaches. *)
Theorem mode_invariant :
  (forall clk rnd : nat -> Z, modeInv (exec setup (boot clk rnd))) /\
  (forall w : World, modeInv w -> modeInv (exec scheduleNextIdleWindow w)) /\
  (forall w : World, modeInv w -> modeInv (exec beginSession w)) /\
  (forall w : World, modeInv w -> modeInv (exec stepSessionIfDue w)) /\
  (forall w : World, modeInv w -> modeInv (exec loop w)) /\
  (forall (clk rnd : nat -> Z) (n : nat), modeInv (run clk rnd n)).
Proof.
  split; [exact setup_modeInv|].
  split; [intros w H; apply scheduleNextIdleWindow_modeInv, H|].
  split; [intros w H; apply beginSession_modeInv, H|].
  split; [exact stepSessionIfDue_modeInv|].
  split; [exact loop_modeInv|].
  intros clk rnd n. rewrite run_unfold. apply loops_modeInv, setup_modeInv.
Qed.

Lemma dueWorld_modeInv : modeInv dueWorld.
Proof.
  apply modeInv_intro.
  - unfold live. cbn. split; [lia|reflexivity].
  - discriminate.
  - by_eval.
Qed.

(** At power-up the invariant does not hold yet: no deadline has been
    scheduled. *)
Lemma boot_not_modeInv (clk rnd : nat -> Z) : ~ modeInv (boot clk rnd).
Proof.
  intros (_ & H & _). destruct (proj1 H eq_refl) as (_ & k & d & Hk & _).
  cbn in Hk. lia.
Qed.

Lemma mode_invariant_witness :
  modeInv dueWorld /\
  modeInv (exec stepSessionIfDue dueWorld) /\
  modeInv (exec loop dueWorld).
Proof.
  split; [exact dueWorld_modeInv|]. split.
  - apply (proj1 (proj2 (proj2 (proj2 mode_invariant))) dueWorld).
    exact dueWorld_modeInv.
  - apply (proj1 (proj2 (proj2 (proj2 (proj2 mode_invariant)))) dueWorld).
    exact dueWorld_modeInv.
Defined.

(** ** The easing curve *)

(** C8.  [easeCosine01 t] is [0.5 * (1 - cos (PI * t))]; it is 0 at 0,
    1 at 1, and non-decreasing on [[0, 1]]. *)
Theorem easing_curve :
  (forall t : R, easeCosine01 t = (0.5 * (1 - cos (PI * t)))%R) /\
  easeCosine01 0 = 0%R /\
  easeCosine01 1 = 1%R /\
  (forall s t : R,
      (0 <= s)%R -> (s <= t)%R -> (t <= 1)%R ->
      (easeCosine01 s <= easeCosine01 t)%R).
Proof.
  split; [reflexivity|]. split; [exact easeCosine01_0|].
  split; [exact easeCosine01_1|]. exact easeCosine01_monotone.
Qed.

Lemma easing_curve_witness :
  (easeCosine01 (1 / 4) <= easeCosine01 (3 / 4))%R.
Proof.
  apply (proj2 (proj2 (proj2 easing_curve)) (1 / 4)%R (3 / 4)%R); lra.
Defined.

(** * Further properties of the sketch *)

(** ** What [beginSession] samples *)

(** X1.  Whatever the entropy, [beginSession] plans a displacement with
    both components in [[-kMoveRangePx, kMoveRangePx]] and a step count in
    [[kMinSteps, kMaxSteps]], resets the progress fields and the step
    timestamp to 0, switches to [MOVING], takes exactly three draws, reads
    no clock, and writes nothing to the outside; start time and deadline
    are left as they were. *)
Theorem beginSession_plan (w : World) :
  let w' := exec beginSession w in
  (- kMoveRangePx <= totalDx (gSession w') <= kMoveRangePx) /\
  (- kMoveRangePx <= totalDy (gSession w') <= kMoveRangePx) /\
  (kMinSteps <= steps (gSession w') <= kMaxSteps) /\
  prevX (gSession w') = 0 /\
  prevY (gSession w') = 0 /\
  i (gSession w') = 0 /\
  lastStepMs (gSession w') = 0 /\
  gState w' = MOVING /\
  draws w' = S (S (S (draws w))) /\
  ticks w' = ticks w /\
  trace w' = trace w /\
  gStartMs w' = gStartMs w /\
  gNextActionMs w' = gNextActionMs w.
Proof.
  intros w'. unfold w'. rewrite beginSession_unfold.
  unfold set_gState, set_gSession, freshSession, draw.
  cbn [gSession gState totalDx totalDy steps prevX prevY i lastStepMs
       draws ticks trace gStartMs gNextActionMs].
  pose proof (Z.mod_pos_bound (entropy w (draws w))
                (2 * kMoveRangePx + 1) eq_refl).
  pose proof (Z.mod_pos_bound (entropy w (S (draws w)))
                (2 * kMoveRangePx + 1) eq_refl).
  pose proof (Z.mod_pos_bound (entropy w (S (S (draws w))))
                (kMaxSteps + 1 - kMinSteps) eq_refl).
  unfold kMoveRangePx, kMinSteps, kMaxSteps in *.
  repeat split; lia.
Qed.

(** ** The shape of a micro-step *)




(** ** Steps that are due are taken *)

Lemma stepNotDue_elapsed (T0 T : Z) :
  0 <= T - T0 < 2 ^ 32 ->
  stepNotDue (wrap32 T) (wrap32 T0) = (T - T0 <? kStepInterval).
Proof.
  intros H. unfold stepNotDue. rewrite wrap32_elapsed by exact H. reflexivity.
Qed.

Lemma stepSessionIfDue_due_elapsed (w : World) (T0 : Z) :
  1 <= i (gSession w) ->
  lastStepMs (gSession w) = wrap32 T0 ->
  kStepInterval <= clock w (ticks w) - T0 < 2 ^ 32 ->
  stepSessionIfDue w = microStep (wrap32 (clock w (ticks w))) (tick w) /\
  i (gSession (exec stepSessionIfDue w)) = i (gSession w) + 1 /\
  lastStepMs (gSession (exec stepSessionIfDue w)) = wrap32 (clock w (ticks w)) /\
  result stepSessionIfDue w
  = negb (steps (gSession w) <=? i (gSession w) + 1).
Proof.
  intros Hi Hl Hd.
  assert (E : stepSessionIfDue w = microStep (wrap32 (clock w (ticks w))) (tick w)).
  { apply stepSessionIfDue_due; [lia|]. rewrite Hl.
    rewrite stepNotDue_elapsed by (unfold kStepInterval in Hd; lia).
    apply Z.ltb_ge. lia. }
  split; [exact E|]. unfold exec, result. rewrite E.
  pose proof (microStep_session (wrap32 (clock w (ticks w))) (tick w)) as Hs.
  pose proof (microStep_result (wrap32 (clock w (ticks w))) (tick w)) as Hr.
  unfold exec, result in Hs, Hr. rewrite Hs, Hr. repeat split.
Qed.



(** ** A burst under way runs to its end *)

Lemma microStep_inner_frame (now : Z) (w : World) :
  i (gSession w) + 1 < steps (gSession w) ->
  clock (exec (microStep now) w) = clock w /\
  ticks (exec (microStep now) w) = ticks w.
Proof.
  intros H. unfold exec. rewrite microStep_unfold. cbv zeta.
  apply Z.leb_gt in H. rewrite H. cbn [snd].
  destruct (stepReport (gSession w)) as [|[dx dy] r]; split; reflexivity.
Qed.

Lemma runBurst_reaches_end (n : nat) (w : World) (T0 : Z) :
  1 <= i (gSession w) ->
  Z.of_nat n = steps (gSession w) - i (gSession w) ->
  (0 < n)%nat ->
  lastStepMs (gSession w) = wrap32 T0 ->
  kStepInterval <= clock w (ticks w) - T0 < 2 ^ 32 ->
  (forall k : nat,
      kStepInterval <= clock w (S (ticks w + k)) - clock w (ticks w + k) < 2 ^ 32) ->
  result (runBurst n) w = true.
Proof.
  revert w T0. induction n as [|n IH]; intros w T0 Hi Hn Hpos Hl Hd Hc; [lia|].
  destruct (stepSessionIfDue_due_elapsed w T0 Hi Hl Hd) as (E & Hi' & Hl' & Hr).
  unfold result. rewrite runBurst_S. rewrite Hr.
  destruct (steps (gSession w) <=? i (gSession w) + 1) eqn:Hlast; [reflexivity|].
  cbn [negb]. apply Z.leb_gt in Hlast.
  assert (Hf : clock (exec stepSessionIfDue w) = clock w /\
               ticks (exec stepSessionIfDue w) = S (ticks w)).
  { unfold exec. rewrite E.
    apply (microStep_inner_frame (wrap32 (clock w (ticks w))) (tick w)). exact Hlast. }
  destruct Hf as [Hck Htk].
  assert (Hst : steps (gSession (exec stepSessionIfDue w)) = steps (gSession w)).
  { unfold exec. rewrite E.
    apply (microStep_plan (wrap32 (clock w (ticks w))) (tick w)). }
  apply (IH (exec stepSessionIfDue w) (clock w (ticks w))).
  - lia.
  - rewrite Hst, Hi'. lia.
  - lia.
  - exact Hl'.
  - rewrite Hck, Htk. specialize (Hc 0%nat). rewrite Nat.add_0_r in Hc. exact Hc.
  - intros k. rewrite Hck, Htk.
    replace (S (ticks w) + k)%nat with (ticks w + S k)%nat by lia. apply Hc.
Qed.

Lemma runBurst_ends_idle (m : nat) (w : World) :
  0 <= i (gSession w) < steps (gSession w) ->
  result (runBurst m) w = true ->
  gState (exec (runBurst m) w) = IDLE.
Proof.
  revert w. induction m as [|m IH]; intros w Hi Hr; [discriminate Hr|].
  unfold result, exec in *. rewrite runBurst_S in *.
  destruct (stepSessionIfDue_cases w) as [(Ht & _ & last & Hs)|(Hnz & Hm)].
  - rewrite Ht in *. apply IH; [|exact Hr].
    rewrite Hs. exact Hi.
  - unfold result, exec in *. rewrite Hm in *.
    pose proof (microStep_result (wrap32 (clock w (ticks w))) (tick w)) as Hb.
    unfold result in Hb. rewrite Hb in *.
    change (gSession (tick w)) with (gSession w) in *.
    destruct (steps (gSession w) <=? i (gSession w) + 1) eqn:E; cbn [negb] in *.
    + cbn [snd]. rewrite microStep_unfold. cbv zeta.
      change (gSession (tick w)) with (gSession w). rewrite E. reflexivity.
    + apply Z.leb_gt in E. apply IH; [|exact Hr].
      destruct (microStep_plan (wrap32 (clock w (ticks w))) (tick w))
        as (_ & _ & Hn & Hk).
      unfold exec in Hn, Hk. rewrite Hn, Hk.
      change (gSession (tick w)) with (gSession w). lia.
Qed.

(** X7.  A burst whose first step has been taken, with plan and emitted
    position in the sampled range, is completed by exactly [steps - i]
    further calls of [stepSessionIfDue], provided each call comes at
    least [kStepInterval] ms (and less than [2^32] ms) after the previous
    clock reading: the index reaches [steps], the mode returns to
    [IDLE], and the reports sent on the way add up to the plan minus the
    position already reached. *)
Theorem burst_under_way_completes (w : World) (T0 : Z) :
  1 <= i (gSession w) < steps (gSession w) ->
  - kMoveRangePx <= totalDx (gSession w) <= kMoveRangePx ->
  - kMoveRangePx <= totalDy (gSession w) <= kMoveRangePx ->
  - kMoveRangePx <= prevX (gSession w) <= kMoveRangePx ->
  - kMoveRangePx <= prevY (gSession w) <= kMoveRangePx ->
  lastStepMs (gSession w) = wrap32 T0 ->
  kStepInterval <= clock w (ticks w) - T0 < 2 ^ 32 ->
  (forall k : nat,
      kStepInterval <= clock w (S (ticks w + k)) - clock w (ticks w + k) < 2 ^ 32) ->
  let n := Z.to_nat (steps (gSession w) - i (gSession w)) in
  result (runBurst n) w = true /\
  i (gSession (exec (runBurst n) w)) = steps (gSession w) /\
  gState (exec (runBurst n) w) = IDLE /\
  sumX (mouseMoves (trace (exec (runBurst n) w)))
  = sumX (mouseMoves (trace w)) + (totalDx (gSession w) - prevX (gSession w)) /\
  sumY (mouseMoves (trace (exec (runBurst n) w)))
  = sumY (mouseMoves (trace w)) + (totalDy (gSession w) - prevY (gSession w)).
Proof.
  intros Hi _ _ _ _ Hl Hd Hc n.
  assert (Hr : result (runBurst n) w = true).
  { apply (runBurst_reaches_end n w T0); unfold n; try assumption; lia. }
  destruct (runBurst_conserves n w ltac:(lia) Hr) as (H1 & H2 & H3).
  split; [exact Hr|]. split; [exact H1|]. split; [|split; assumption].
  apply runBurst_ends_idle; [lia|exact Hr].
Qed.

Lemma burst_under_way_completes_witness :
  result (runBurst 1) steppingWorld = true /\
  i (gSession (exec (runBurst 1) steppingWorld)) = 2 /\
  gState (exec (runBurst 1) steppingWorld) = IDLE /\
  sumX (mouseMoves (trace (exec (runBurst 1) steppingWorld))) = 0 + (10 - 5) /\
  sumY (mouseMoves (trace (exec (runBurst 1) steppingWorld))) = 0 + (0 - 0).
Proof.
  apply (burst_under_way_completes steppingWorld 1000).
  - by_eval.
  - by_eval.
  - by_eval.
  - by_eval.
  - by_eval.
  - reflexivity.
  - by_eval.
  - intros k. cbn [steppingWorld movingWorld clock ticks]. unfold steadyClock, kStepInterval.
    lia.
Defined.

(** ** Whole executions *)

Lemma loops_add (n m : nat) (w : World) :
  exec (loops (n + m)) w = exec (loops m) (exec (loops n) w).
Proof.
  revert w. induction n as [|n IH]; intros w; [reflexivity|].
  cbn [Nat.add]. rewrite !loops_S. apply IH.
Qed.

Lemma run_add (clk rnd : nat -> Z) (n m : nat) :
  run clk rnd (n + m) = exec (loops m) (run clk rnd n).
Proof. rewrite !run_unfold. apply loops_add. Qed.

Lemma ledLevel_delay (tr : list Output) (ms : Z) (l : bool) :
  ledLevel (tr ++ [Delay ms]) l = ledLevel tr l.
Proof. rewrite ledLevel_app. reflexivity. Qed.

(** What one poll can do to a world whose burst index is 0. *)
Lemma loop_at_index_zero (w : World) :
  i (gSession w) = 0 ->
  prevX (gSession w) = 0 ->
  prevY (gSession w) = 0 ->
  let w' := exec loop w in
  i (gSession w') = 0 /\
  prevX (gSession w') = 0 /\
  prevY (gSession w') = 0 /\
  mouseMoves (trace w') = mouseMoves (trace w) /\
  gNextActionMs w' = gNextActionMs w /\
  (ledOn w = true -> ledOn w' = true) /\
  (gState w = MOVING ->
   gState w' = MOVING /\ draws w' = draws w /\
   totalDx (gSession w') = totalDx (gSession w) /\
   totalDy (gSession w') = totalDy (gSession w) /\
   steps (gSession w') = steps (gSession w)) /\
  (gState w = IDLE ->
   (gState w' = IDLE /\ draws w' = draws w /\ gSession w' = gSession w) \/
   (gState w' = MOVING /\ draws w' = S (S (S (draws w))))).
Proof.
  intros Hi Hx Hy w'. unfold w', exec. rewrite loop_unfold.
  destruct (budgetExpired _ _).
  - cbn [snd gSession gState gNextActionMs draws emit tick trace].
    rewrite <- app_assoc, mouseMoves_app. cbn [mouseMoves app]. rewrite app_nil_r.
    repeat split; try assumption.
    + intros _. unfold ledOn. cbn [trace emit tick]. rewrite <- app_assoc.
      apply ledLevel_after_hold.
    + left. repeat split. assumption.
  - destruct (gState w) eqn:Hs.
    + destruct (deadlineReached _ _).
      * cbn [snd]. rewrite beginSession_unfold.
        cbn [gSession gState gNextActionMs draws emit tick trace set_gState
             set_gSession draw freshSession i prevX prevY].
        repeat split; try reflexivity; try tauto; try discriminate.
      * cbn [snd gSession gState gNextActionMs draws emit tick trace].
        rewrite mouseMoves_app. cbn [mouseMoves]. rewrite app_nil_r.
        repeat split; try assumption; try discriminate.
        -- unfold ledOn. cbn [trace emit tick]. rewrite ledLevel_delay. tauto.
        -- left. repeat split; assumption.
    + unfold exec. rewrite stepSessionIfDue_fresh by exact Hi.
      cbn [snd gSession gState gNextActionMs draws emit tick trace set_gSession
           set_lastStepMs i prevX prevY totalDx totalDy steps].
      rewrite mouseMoves_app. cbn [mouseMoves]. rewrite app_nil_r.
      repeat split; try assumption; try discriminate.
      unfold ledOn. cbn [trace emit tick set_gSession]. rewrite ledLevel_delay. tauto.
Qed.

Lemma loops_at_index_zero (m : nat) (w : World) :
  i (gSession w) = 0 ->
  prevX (gSession w) = 0 ->
  prevY (gSession w) = 0 ->
  let w' := exec (loops m) w in
  i (gSession w') = 0 /\
  prevX (gSession w') = 0 /\
  prevY (gSession w') = 0 /\
  mouseMoves (trace w') = mouseMoves (trace w) /\
  gNextActionMs w' = gNextActionMs w /\
  (ledOn w = true -> ledOn w' = true) /\
  (gState w = MOVING ->
   gState w' = MOVING /\ draws w' = draws w /\
   totalDx (gSession w') = totalDx (gSession w) /\
   totalDy (gSession w') = totalDy (gSession w) /\
   steps (gSession w') = steps (gSession w)).
Proof.
  revert w. induction m as [|m IH]; intros w Hi Hx Hy.
  - cbn. repeat split; tauto.
  - cbv zeta. rewrite loops_S.
    destruct (loop_at_index_zero w Hi Hx Hy) as (A1 & A2 & A3 & A4 & A5 & A6 & A7 & _).
    destruct (IH _ A1 A2 A3) as (B1 & B2 & B3 & B4 & B5 & B6 & B7).
    repeat split; try assumption; try congruence.
    + tauto.
    + apply B7, A7; assumption.
    + destruct (A7 H) as (C1 & C2 & _). destruct (B7 C1) as (_ & D2 & _). congruence.
    + destruct (A7 H) as (C1 & _ & C3 & _). destruct (B7 C1) as (_ & _ & D3 & _). congruence.
    + destruct (A7 H) as (C1 & _ & _ & C4 & _). destruct (B7 C1) as (_ & _ & _ & D4 & _).
      congruence.
    + destruct (A7 H) as (C1 & _ & _ & _ & C5). destruct (B7 C1) as (_ & _ & _ & _ & D5).
      congruence.
Qed.

Lemma setup_state (clk rnd : nat -> Z) :
  let w := exec setup (boot clk rnd) in
  gState w = IDLE /\ gSession w = defaultSession /\ draws w = 1%nat /\
  ticks w = 2%nat /\ clock w = clk /\ trace w = [DigitalWrite kLedPin LOW] /\
  gStartMs w = wrap32 (clk 0%nat) /\
  gNextActionMs w
  = wrap32 (wrap32 (clk 1%nat)
            + (kMinPauseMs + rnd 0%nat mod (kMaxPauseMs - kMinPauseMs))).
Proof. cbv zeta. repeat split. Qed.

Lemma run_index_zero (clk rnd : nat -> Z) (n : nat) :
  i (gSession (run clk rnd n)) = 0 /\
  prevX (gSession (run clk rnd n)) = 0 /\
  prevY (gSession (run clk rnd n)) = 0 /\
  mouseMoves (trace (run clk rnd n)) = [].
Proof.
  rewrite run_unfold.
  destruct (loops_at_index_zero n (exec setup (boot clk rnd)))
    as (H1 & H2 & H3 & H4 & _); try reflexivity.
  rewrite H1, H2, H3, H4. repeat split.
Qed.

(** X2.  In every execution (power-up, [setup()], any number of polls of
    [loop()], any clock, any entropy) the burst index is 0, the emitted
    position is [(0, 0)] and no motion report has been sent: the sketch
    never calls [Mouse.move]. *)
Theorem program_sends_no_motion (clk rnd : nat -> Z) (n : nat) :
  i (gSession (run clk rnd n)) = 0 /\
  prevX (gSession (run clk rnd n)) = 0 /\
  prevY (gSession (run clk rnd n)) = 0 /\
  mouseMoves (trace (run clk rnd n)) = [].
Proof. apply run_index_zero. Qed.

Lemma run_phase (clk rnd : nat -> Z) (n : nat) :
  (gState (run clk rnd n) = IDLE /\ draws (run clk rnd n) = 1%nat /\
   gSession (run clk rnd n) = defaultSession) \/
  (gState (run clk rnd n) = MOVING /\ draws (run clk rnd n) = 4%nat).
Proof.
  induction n as [|n IH].
  - left. rewrite run_unfold. repeat split.
  - replace (S n) with (n + 1)%nat by lia. rewrite run_add.
    change (exec (loops 1) (run clk rnd n)) with (exec (loop ;; ret tt)%jig (run clk rnd n)).
    rewrite exec_bind. change (exec (ret tt) ?x) with x.
    destruct (run_index_zero clk rnd n) as (Hi & Hx & Hy & _).
    destruct (loop_at_index_zero _ Hi Hx Hy) as (_ & _ & _ & _ & _ & _ & Hm & Hd).
    destruct IH as [(Hs & Hdr & Hse)|(Hs & Hdr)].
    + destruct (Hd Hs) as [(A & B & C)|(A & B)].
      * left. repeat split; congruence.
      * right. split; [exact A|]. rewrite B, Hdr. reflexivity.
    + right. destruct (Hm Hs) as (A & B & _). split; congruence.
Qed.

(** X3.  An execution begins at most one burst and never finishes it.
    After any number of polls the program is either still [IDLE] with the
    single draw of [setup()] behind it, or [MOVING] with exactly four
    draws behind it; in the second case every later poll finds it
    [MOVING] still, with the same plan and no further draw.  The deadline
    is the one [setup()] scheduled throughout: no second idle window is
    ever scheduled. *)
Theorem at_most_one_burst_begins (clk rnd : nat -> Z) (n : nat) :
  gNextActionMs (run clk rnd n) = gNextActionMs (run clk rnd 0) /\
  ((gState (run clk rnd n) = IDLE /\ draws (run clk rnd n) = 1%nat /\
    gSession (run clk rnd n) = defaultSession) \/
   (gState (run clk rnd n) = MOVING /\ draws (run clk rnd n) = 4%nat /\
    forall m : nat,
      gState (run clk rnd (n + m)) = MOVING /\
      draws (run clk rnd (n + m)) = 4%nat /\
      totalDx (gSession (run clk rnd (n + m))) = totalDx (gSession (run clk rnd n)) /\
      totalDy (gSession (run clk rnd (n + m))) = totalDy (gSession (run clk rnd n)) /\
      steps (gSession (run clk rnd (n + m))) = steps (gSession (run clk rnd n)))).
Proof.
  split.
  - rewrite (run_unfold clk rnd n), (run_unfold clk rnd 0).
    destruct (loops_at_index_zero n (exec setup (boot clk rnd)))
      as (_ & _ & _ & _ & H & _); try reflexivity.
    exact H.
  - destruct (run_phase clk rnd n) as [H|(Hs & Hd)]; [left; exact H|].
    right. split; [exact Hs|]. split; [exact Hd|]. intros m. rewrite run_add.
    destruct (run_index_zero clk rnd n) as (Hi & Hx & Hy & _).
    destruct (loops_at_index_zero m _ Hi Hx Hy) as (_ & _ & _ & _ & _ & _ & H).
    destruct (H Hs) as (A & B & C & D & E). repeat split; congruence.
Qed.

(** X4.  Once the indicator is on in an execution it is on after every
    later poll, whatever the clock does afterwards (a wrapped counter
    included): nothing in a reachable state writes it low again. *)
Theorem indicator_stays_on (clk rnd : nat -> Z) (n m : nat) :
  ledOn (run clk rnd n) = true ->
  ledOn (run clk rnd (n + m)) = true.
Proof.
  intros H. rewrite run_add.
  destruct (run_index_zero clk rnd n) as (Hi & Hx & Hy & _).
  destruct (loops_at_index_zero m _ Hi Hx Hy) as (_ & _ & _ & _ & _ & L & _).
  apply L, H.
Qed.

Lemma indicator_stays_on_witness :
  ledOn (run wrapClock (constEntropy 0) 1) = true /\
  gState (run wrapClock (constEntropy 0) (1 + 1)) = MOVING /\
  ledOn (run wrapClock (constEntropy 0) (1 + 1)) = true.
Proof.
  assert (H : ledOn (run wrapClock (constEntropy 0) 1) = true) by by_eval.
  split; [exact H|]. split; [by_eval|].
  exact (indicator_stays_on wrapClock (constEntropy 0) 1 1 H).
Defined.

(** ** The first idle window *)

Lemma loops_stay_idle (n : nat) (w : World) :
  gState w = IDLE ->
  gNextActionMs w <= 2 ^ 32 ->
  (forall k : nat, (k < 2 * n)%nat ->
                   0 <= clock w (ticks w + k) < gNextActionMs w) ->
  gState (exec (loops n) w) = IDLE /\
  gSession (exec (loops n) w) = gSession w /\
  draws (exec (loops n) w) = draws w /\
  gNextActionMs (exec (loops n) w) = gNextActionMs w.
Proof.
  revert w. induction n as [|n IH]; intros w Hs Hd Hc; [repeat split; assumption|].
  rewrite loops_S.
  assert (Hstep : gState (exec loop w) = IDLE /\
                  gSession (exec loop w) = gSession w /\
                  draws (exec loop w) = draws w /\
                  gNextActionMs (exec loop w) = gNextActionMs w /\
                  clock (exec loop w) = clock w /\
                  (ticks w < ticks (exec loop w) <= ticks w + 2)%nat).
  { unfold exec. rewrite loop_unfold.
    destruct (budgetExpired _ _).
    - cbn. repeat split; try assumption; lia.
    - rewrite Hs.
      assert (E : deadlineReached (wrap32 (clock w (S (ticks w)))) (gNextActionMs w)
                  = false).
      { unfold deadlineReached. apply Z.leb_gt.
        pose proof (Hc 1%nat ltac:(lia)) as H1.
        replace (ticks w + 1)%nat with (S (ticks w)) in H1 by lia.
        rewrite wrap32_small; lia. }
      rewrite E. cbn. repeat split; try assumption; lia. }
  destruct Hstep as (A & B & C & D & E & F).
  destruct (IH (exec loop w)) as (A' & B' & C' & D').
  - exact A.
  - rewrite D. exact Hd.
  - intros k Hk. rewrite D, E.
    replace (ticks (exec loop w) + k)%nat
      with (ticks w + (ticks (exec loop w) - ticks w + k))%nat by lia.
    apply Hc. lia.
  - repeat split; congruence.
Qed.

(** X8.  The program stays idle through its first window: as long as
    every clock reading is non-negative and earlier than the reading
    [setup()] scheduled from plus [kMinPauseMs] (and that window ends
    before the counter wraps), the mode is [IDLE], no burst has been
    planned, no draw has been taken beyond the one of [setup()], and
    nothing has been sent. *)
Theorem idle_through_first_window (clk rnd : nat -> Z) (n : nat) :
  (forall k : nat, (k <= 2 * n + 1)%nat ->
                   0 <= clk k < clk 1%nat + kMinPauseMs) ->
  clk 1%nat + kMaxPauseMs <= 2 ^ 32 ->
  gState (run clk rnd n) = IDLE /\
  gSession (run clk rnd n) = defaultSession /\
  draws (run clk rnd n) = 1%nat /\
  mouseMoves (trace (run clk rnd n)) = [] /\
  clk 1%nat + kMinPauseMs <= gNextActionMs (run clk rnd n)
  < clk 1%nat + kMaxPauseMs.
Proof.
  intros Hc Hw.
  destruct (setup_state clk rnd) as (S1 & S2 & S3 & S4 & S5 & _ & _ & S8).
  pose proof (Hc 1%nat ltac:(lia)) as H1.
  pose proof (Z.mod_pos_bound (rnd 0%nat) (kMaxPauseMs - kMinPauseMs) eq_refl) as Hp.
  assert (Hd : gNextActionMs (exec setup (boot clk rnd))
               = clk 1%nat + (kMinPauseMs + rnd 0%nat mod (kMaxPauseMs - kMinPauseMs))).
  { rewrite S8. unfold kMinPauseMs, kMaxPauseMs in *.
    rewrite (wrap32_small (clk 1%nat)) by lia. rewrite wrap32_small; lia. }
  rewrite run_unfold.
  destruct (loops_stay_idle n (exec setup (boot clk rnd))) as (A & B & C & D).
  - exact S1.
  - rewrite Hd. unfold kMinPauseMs, kMaxPauseMs in *. lia.
  - intros k Hk. rewrite S4, S5, Hd.
    pose proof (Hc (2 + k)%nat ltac:(lia)) as H2.
    unfold kMinPauseMs, kMaxPauseMs in *. lia.
  - destruct (run_index_zero clk rnd n) as (_ & _ & _ & Hm).
    rewrite run_unfold in Hm.
    rewrite A, B, C, D, Hm, S2, S3, Hd.
    unfold kMinPauseMs, kMaxPauseMs in *. repeat split; lia.
Qed.

Lemma idle_through_first_window_witness :
  gState (run (steadyClock 0 100) (constEntropy 12345) 50) = IDLE /\
  gSession (run (steadyClock 0 100) (constEntropy 12345) 50) = defaultSession /\
  draws (run (steadyClock 0 100) (constEntropy 12345) 50) = 1%nat /\
  mouseMoves (trace (run (steadyClock 0 100) (constEntropy 12345) 50)) = [] /\
  100 + kMinPauseMs
  <= gNextActionMs (run (steadyClock 0 100) (constEntropy 12345) 50)
  < 100 + kMaxPauseMs.
Proof.
  apply (idle_through_first_window (steadyClock 0 100) (constEntropy 12345) 50).
  - intros k Hk. unfold steadyClock, kMinPauseMs. lia.
  - by_eval.
Defined.

(** ** More on the easing curve *)

(** X9.  (Float arithmetic read as real arithmetic.)  On [[0, 1]], the
    range of progress the sketch uses, the eased progress lies in
    [[0, 1]] and the curve is symmetric about the midpoint:
    [easeCosine01 (1 - t) = 1 - easeCosine01 t], so it passes through
    [1/2] at [t = 1/2]. *)
Theorem easing_range_and_symmetry (t : R) :
  (0 <= t <= 1)%R ->
  (0 <= easeCosine01 t <= 1)%R /\
  (0 <= easeCosine01 (1 - t) <= 1)%R /\
  easeCosine01 (1 - t) = (1 - easeCosine01 t)%R /\
  easeCosine01 (1 / 2) = (1 / 2)%R.
Proof.
  intros _. split; [apply easeCosine01_unit|]. split; [apply easeCosine01_unit|].
  split.
  - unfold easeCosine01.
    replace (PI * (1 - t))%R with (- (PI * t) + PI)%R by lra.
    rewrite neg_cos, cos_neg. lra.
  - apply easeCosine01_half.
Qed.

Lemma easing_range_and_symmetry_witness :
  easeCosine01 (1 - 1 / 4) = (1 - easeCosine01 (1 / 4))%R.
Proof.
  apply (easing_range_and_symmetry (1 / 4)%R). lra.
Defined.

(** ** Positions never overshoot the plan *)










(** ** Velocity along the easing curve *)

Lemma easeCosine01_derivative (t : R) :
  derivable_pt_lim easeCosine01 t (0.5 * PI * sin (PI * t))%R.
Proof.
  apply (derivable_pt_lim_ext
           (mult_real_fct 0.5%R
              (minus_fct (fct_cte 1) (comp cos (mult_real_fct PI id))))).
  - intros z. reflexivity.
  - replace (0.5 * PI * sin (PI * t))%R
      with (0.5 * (0 - (- sin (mult_real_fct PI id t) * (PI * 1))))%R
      by (unfold mult_real_fct, id; lra).
    apply derivable_pt_lim_scal, derivable_pt_lim_minus.
    + apply derivable_pt_lim_const.
    + apply derivable_pt_lim_comp.
      * apply derivable_pt_lim_scal, derivable_pt_lim_id.
      * apply derivable_pt_lim_cos.
Qed.

(** X11.  The easing curve has derivative [0.5 * PI * sin (PI * t)]: the
    eased motion starts and ends at rest (derivative 0 at [t = 0] and
    [t = 1]), is fastest at the midpoint (derivative [PI / 2]), and its
    derivative is never negative nor above [PI / 2] on [[0, 1]]. *)
Theorem easing_velocity :
  (forall t : R, derivable_pt_lim easeCosine01 t (0.5 * PI * sin (PI * t))%R) /\
  derivable_pt_lim easeCosine01 0%R 0%R /\
  derivable_pt_lim easeCosine01 1%R 0%R /\
  derivable_pt_lim easeCosine01 (1 / 2)%R (PI / 2)%R /\
  (forall t : R, (0 <= t <= 1)%R ->
                 (0 <= 0.5 * PI * sin (PI * t) <= PI / 2)%R).
Proof.
  split; [exact easeCosine01_derivative|]. split; [|split; [|split]].
  - pose proof (easeCosine01_derivative 0) as H.
    rewrite Rmult_0_r, sin_0, Rmult_0_r in H. exact H.
  - pose proof (easeCosine01_derivative 1) as H.
    rewrite Rmult_1_r, sin_PI, Rmult_0_r in H. exact H.
  - pose proof (easeCosine01_derivative (1 / 2)) as H.
    replace (PI * (1 / 2))%R with (PI / 2)%R in H by lra.
    rewrite sin_PI2 in H.
    replace (0.5 * PI * 1)%R with (PI / 2)%R in H by lra. exact H.
  - intros t [H0 H1]. pose proof PI_RGT_0 as Hpi.
    assert (Hs : (0 <= sin (PI * t))%R) by (apply sin_ge_0; nra).
    pose proof (SIN_bound (PI * t)) as [_ Hb]. nra.
Qed.

Lemma easing_velocity_witness :
  (0 <= 0.5 * PI * sin (PI * (1 / 4)) <= PI / 2)%R.
Proof.
  apply (proj2 (proj2 (proj2 (proj2 easing_velocity))) (1 / 4)%R). lra.
Defined.

(** ** What a call of the stepper leaves alone *)



(** ** Polls within the run budget *)

Lemma digitalWrites_app (a b : list Output) :
  digitalWrites (a ++ b) = digitalWrites a ++ digitalWrites b.
Proof.
  induction a as [|o a IH]; simpl; [reflexivity|].
  destruct o; simpl; rewrite IH; reflexivity.
Qed.

Lemma ledLevel_digitalWrites (tr : list Output) (l : bool) :
  digitalWrites tr = [] -> ledLevel tr l = l.
Proof.
  revert l. induction tr as [|o tr IH]; intros l H; [reflexivity|].
  destruct o; simpl in *; try discriminate; apply IH; exact H.
Qed.

Lemma budget_unexpired (T0 T : Z) :
  0 <= T - T0 < limitMs ->
  budgetExpired (wrap32 T) (wrap32 T0) = false.
Proof.
  intros H. unfold budgetExpired. apply Z.leb_gt.
  unfold limitMs, kHoursToRun in *. rewrite wrap32_elapsed; lia.
Qed.

(** One poll, budget not expired, burst index 0. *)
Lemma loop_unexpired_at_index_zero (w : World) :
  i (gSession w) = 0 ->
  budgetExpired (wrap32 (clock w (ticks w))) (gStartMs w) = false ->
  let w' := exec loop w in
  clock w' = clock w /\
  gStartMs w' = gStartMs w /\
  digitalWrites (trace w') = digitalWrites (trace w) /\
  (ticks w < ticks w' <= ticks w + 2)%nat /\
  (gState w = IDLE ->
   if deadlineReached (wrap32 (clock w (S (ticks w)))) (gNextActionMs w)
   then gState w' = MOVING
   else gState w' = IDLE /\ ticks w' = S (S (ticks w))).
Proof.
  intros Hi Hb w'. unfold w', exec. rewrite loop_unfold, Hb.
  destruct (gState w) eqn:Hs.
  - destruct (deadlineReached _ _).
    + cbn [snd]. rewrite beginSession_unfold.
      cbn [clock gStartMs trace ticks gState set_gState set_gSession draw tick].
      repeat split; first [reflexivity | lia].
    + cbn [snd clock gStartMs trace ticks gState emit tick].
      rewrite digitalWrites_app. cbn [digitalWrites]. rewrite app_nil_r.
      repeat split;
        first [reflexivity | lia | exact Hs].
  - unfold exec. rewrite stepSessionIfDue_fresh by exact Hi.
    cbn [snd clock gStartMs trace ticks gState emit tick set_gSession].
    rewrite digitalWrites_app. cbn [digitalWrites]. rewrite app_nil_r.
    repeat split; first [reflexivity | lia | discriminate].
Qed.

Lemma loops_unexpired_at_index_zero (n : nat) (w : World) (T0 : Z) :
  i (gSession w) = 0 ->
  prevX (gSession w) = 0 ->
  prevY (gSession w) = 0 ->
  gStartMs w = wrap32 T0 ->
  (forall k : nat, (k < 2 * n)%nat ->
                   0 <= clock w (ticks w + k) - T0 < limitMs) ->
  digitalWrites (trace (exec (loops n) w)) = digitalWrites (trace w).
Proof.
  revert w. induction n as [|n IH]; intros w Hi Hx Hy Hs Hc; [reflexivity|].
  rewrite loops_S.
  assert (Hb : budgetExpired (wrap32 (clock w (ticks w))) (gStartMs w) = false).
  { rewrite Hs. apply budget_unexpired.
    pose proof (Hc 0%nat ltac:(lia)) as H0. rewrite Nat.add_0_r in H0. exact H0. }
  destruct (loop_unexpired_at_index_zero w Hi Hb) as (A & B & C & D & _).
  destruct (loop_at_index_zero w Hi Hx Hy) as (Hi' & Hx' & Hy' & _).
  rewrite IH; try assumption.
  - congruence.
  - intros k Hk. rewrite A.
    replace (ticks (exec loop w) + k)%nat
      with (ticks w + (ticks (exec loop w) - ticks w + k))%nat by lia.
    apply Hc. lia.
Qed.

(** X13.  While the true time since the start reading stays within the
    run budget, the indicator is never switched on: after any number of
    polls the only indicator write of the execution is the [LOW] of
    [setup()]. *)
Theorem indicator_off_within_budget (clk rnd : nat -> Z) (n : nat) :
  (forall k : nat, (k <= 2 * n + 1)%nat -> 0 <= clk k - clk 0%nat < limitMs) ->
  digitalWrites (trace (run clk rnd n)) = [(kLedPin, LOW)] /\
  ledOn (run clk rnd n) = false.
Proof.
  intros Hc.
  assert (Hd : digitalWrites (trace (run clk rnd n)) = [(kLedPin, LOW)]).
  { rewrite run_unfold.
    rewrite (loops_unexpired_at_index_zero n _ (clk 0%nat)); try reflexivity.
    intros k Hk. apply (Hc (2 + k)%nat). lia. }
  split; [exact Hd|].
  unfold ledOn. revert Hd. generalize (trace (run clk rnd n)) as tr.
  intros tr. induction tr as [|o tr IH]; [discriminate|].
  destruct o as [pin l| |]; cbn; intros H; try (apply IH; exact H).
  inversion H as [[Hp Hl H']]. apply ledLevel_digitalWrites. exact H'.
Qed.

Lemma indicator_off_within_budget_witness :
  digitalWrites (trace (run (steadyClock 0 1000) zeroBurstEntropy 100))
  = [(kLedPin, LOW)] /\
  ledOn (run (steadyClock 0 1000) zeroBurstEntropy 100) = false.
Proof.
  apply (indicator_off_within_budget (steadyClock 0 1000) zeroBurstEntropy 100).
  intros k Hk. unfold steadyClock, limitMs, kHoursToRun. lia.
Defined.

(** ** The planner starts a burst when the deadline has passed *)

Lemma run_S (clk rnd : nat -> Z) (n : nat) :
  run clk rnd (S n) = exec loop (run clk rnd n).
Proof.
  replace (S n) with (n + 1)%nat by lia. rewrite run_add.
  change (loops 1) with (loop ;; ret tt)%jig. rewrite exec_bind. reflexivity.
Qed.

Lemma run_moving_persists (clk rnd : nat -> Z) (n m : nat) :
  gState (run clk rnd n) = MOVING ->
  gState (run clk rnd (n + m)) = MOVING /\ draws (run clk rnd (n + m)) = 4%nat.
Proof.
  intros Hs. rewrite run_add.
  destruct (run_index_zero clk rnd n) as (Hi & Hx & Hy & _).
  destruct (loops_at_index_zero m _ Hi Hx Hy) as (_ & _ & _ & _ & _ & _ & H).
  destruct (H Hs) as (A & B & _). split; [exact A|].
  destruct (run_phase clk rnd n) as [(C & _)|(_ & C)]; congruence.
Qed.

Lemma run_env (clk rnd : nat -> Z) (n : nat) :
  (forall k : nat, (k <= 2 * n + 1)%nat -> 0 <= clk k - clk 0%nat < limitMs) ->
  clock (run clk rnd n) = clk /\
  gStartMs (run clk rnd n) = wrap32 (clk 0%nat) /\
  (gState (run clk rnd n) = IDLE -> ticks (run clk rnd n) = (2 + 2 * n)%nat).
Proof.
  induction n as [|n IH]; intros Hc.
  - rewrite run_unfold. repeat split.
  - destruct IH as (Ck & St & Tk); [intros k Hk; apply Hc; lia|].
    destruct (run_index_zero clk rnd n) as (Hi & _).
    assert (Htk : (ticks (run clk rnd n) <= 2 + 2 * n)%nat).
    { clear Tk. assert (forall m, (ticks (run clk rnd m) <= 2 + 2 * m)%nat) as G.
      { intros m. induction m as [|m IHm]; [rewrite run_unfold; cbn; lia|].
        rewrite run_S. unfold exec. rewrite loop_unfold.
        destruct (budgetExpired _ _); [cbn; lia|].
        destruct (gState (run clk rnd m)).
        - destruct (deadlineReached _ _); [|cbn; lia].
          cbn [snd]. rewrite beginSession_unfold. cbn. lia.
        - destruct (run_index_zero clk rnd m) as (Hm & _).
          unfold exec. rewrite stepSessionIfDue_fresh by exact Hm. cbn. lia. }
      apply G. }
    assert (Hb : budgetExpired (wrap32 (clock (run clk rnd n) (ticks (run clk rnd n))))
                   (gStartMs (run clk rnd n)) = false).
    { rewrite Ck, St. apply budget_unexpired. apply Hc. lia. }
    destruct (loop_unexpired_at_index_zero _ Hi Hb) as (A & B & _ & _ & E).
    rewrite run_S. split; [congruence|]. split; [congruence|].
    intros Hs.
    destruct (gState (run clk rnd n)) eqn:Hn.
    + specialize (E eq_refl). destruct (deadlineReached _ _).
      * rewrite E in Hs. discriminate Hs.
      * destruct E as [_ E]. rewrite E, Tk by reflexivity. lia.
    + destruct (run_moving_persists clk rnd n 1 Hn) as [Hmv _].
      replace (n + 1)%nat with (S n) in Hmv by lia. rewrite run_S in Hmv.
      rewrite Hmv in Hs. discriminate Hs.
Qed.

(** X14.  While the run budget has not expired and the 32-bit counter has
    not wrapped, the planner cannot miss its deadline: if clock reading
    number [2 j + 3] (the one against which poll [j] tests the deadline
    when the program is still idle) has reached the deadline [setup()]
    stored, then a burst has begun by the end of poll [j], with exactly
    four draws taken, and the mode is [MOVING] at every later poll. *)
Theorem burst_begins_once_deadline_passes (clk rnd : nat -> Z) (j m : nat) :
  (forall k : nat, (k <= 2 * j + 3)%nat ->
                   0 <= clk k < 2 ^ 32 /\ 0 <= clk k - clk 0%nat < limitMs) ->
  gNextActionMs (run clk rnd 0) <= clk (2 * j + 3)%nat ->
  gState (run clk rnd (S j + m)) = MOVING /\
  draws (run clk rnd (S j + m)) = 4%nat.
Proof.
  intros Hc Hd. apply run_moving_persists.
  destruct (run_phase clk rnd j) as [(Hs & _)|(Hs & _)].
  - destruct (run_env clk rnd j) as (Ck & St & Tk);
      [intros k Hk; apply Hc; lia|].
    specialize (Tk Hs).
    destruct (run_index_zero clk rnd j) as (Hi & Hx & Hy & _).
    assert (Hb : budgetExpired (wrap32 (clock (run clk rnd j) (ticks (run clk rnd j))))
                   (gStartMs (run clk rnd j)) = false).
    { rewrite Ck, St. apply budget_unexpired. apply Hc. lia. }
    destruct (loop_unexpired_at_index_zero _ Hi Hb) as (_ & _ & _ & _ & E).
    specialize (E Hs).
    assert (Hn : gNextActionMs (run clk rnd j) = gNextActionMs (run clk rnd 0)).
    { rewrite (run_unfold clk rnd j), (run_unfold clk rnd 0).
      destruct (loops_at_index_zero j (exec setup (boot clk rnd)))
        as (_ & _ & _ & _ & H & _); try reflexivity. exact H. }
    assert (Hr : deadlineReached
                   (wrap32 (clock (run clk rnd j) (S (ticks (run clk rnd j)))))
                   (gNextActionMs (run clk rnd j)) = true).
    { rewrite Ck, Tk, Hn. unfold deadlineReached. apply Z.leb_le.
      replace (S (2 + 2 * j)) with (2 * j + 3)%nat by lia.
      rewrite wrap32_small; [exact Hd|]. apply Hc. lia. }
    rewrite Hr in E. rewrite run_S. exact E.
  - destruct (run_moving_persists clk rnd j 1 Hs) as [H _].
    replace (j + 1)%nat with (S j) in H by lia. exact H.
Qed.

Lemma burst_begins_once_deadline_passes_witness :
  gNextActionMs (run (steadyClock 0 1000) zeroBurstEntropy 0) = 23000 /\
  steadyClock 0 1000 (2 * 10 + 3) = 23000 /\
  gState (run (steadyClock 0 1000) zeroBurstEntropy (S 10 + 5)) = MOVING /\
  draws (run (steadyClock 0 1000) zeroBurstEntropy (S 10 + 5)) = 4%nat.
Proof.
  split; [reflexivity|]. split; [reflexivity|].
  apply (burst_begins_once_deadline_passes (steadyClock 0 1000) zeroBurstEntropy 10 5).
  - intros k Hk. unfold steadyClock, limitMs, kHoursToRun. lia.
  - by_eval.
Defined.
